(** * Weather page: input classification, resolution pipeline, forecast shaping

    A shallow embedding of [src/weather_app.tsx] (the [Page] component and its
    helpers) and the properties of it that the specification states.

    - JavaScript strings are sequences of UTF-16 code units ([str]).
    - [RegExp] is a small backtracking matcher with capture groups, enough
      for the one regular expression of the file.
    - Numbers are IEEE doubles, kept as the exact rational they denote.
    - JSON payloads are dynamically typed [value]s; property access follows
      the JavaScript rules, including the [TypeError] on [null]/[undefined].
    - The asynchronous handlers are resumptions over the component state:
      every [await] of a network operation is a suspension point at which
      other handlers may run. *)

From Stdlib Require Import String Ascii DecimalString List ZArith NArith QArith Qabs
  Bool Lia.
Import ListNotations.

Close Scope Q_scope.
Open Scope nat_scope.

Set Implicit Arguments.

(* ------------------------------------------------------------------ *)
(** ** Strings *)

Module Str.

(** A UTF-16 code unit. *)
Definition char := N.

Definition str := list char.

(** An ASCII literal of the source as a JavaScript string. *)
Definition lit (s : string) : str :=
  List.map N_of_ascii (list_ascii_of_string s).

Fixpoint eqb (a b : str) : bool :=
  match a, b with
  | [], [] => true
  | x :: a', y :: b' => N.eqb x y && eqb a' b'
  | _, _ => false
  end.

(** [WhiteSpace] and [LineTerminator] of ECMAScript: what [trim] strips and
    what [\s] matches. *)
Definition is_space (c : char) : bool :=
  let in_range lo hi := (N.leb lo c && N.leb c hi)%bool in
  (in_range 9 13 || N.eqb c 32 || N.eqb c 160 || N.eqb c 5760
   || in_range 8192 8202 || N.eqb c 8232 || N.eqb c 8233 || N.eqb c 8239
   || N.eqb c 8287 || N.eqb c 12288 || N.eqb c 65279)%N%bool.

(** [\d]: the ASCII digits only. *)
Definition is_digit (c : char) : bool := (N.leb 48 c && N.leb c 57)%bool.

Definition is_char (a : ascii) (c : char) : bool := N.eqb c (N_of_ascii a).

Fixpoint dropWhile (p : char -> bool) (s : str) : str :=
  match s with
  | x :: s' => if p x then dropWhile p s' else s
  | [] => []
  end.

Fixpoint takeWhile (p : char -> bool) (s : str) : str :=
  match s with
  | x :: s' => if p x then x :: takeWhile p s' else []
  | [] => []
  end.

Definition trimStart (s : str) : str := dropWhile is_space s.
Definition trimEnd (s : str) : str := rev (dropWhile is_space (rev s)).

(** [String.prototype.trim] *)
Definition trim (s : str) : str := trimEnd (trimStart s).

(** [r] is empty or starts with a character outside [p]. *)
Definition stops (p : char -> bool) (r : str) : Prop :=
  match r with
  | [] => True
  | x :: _ => p x = false
  end.

End Str.

Import Str.

(* ------------------------------------------------------------------ *)
(** ** Numbers *)

Module Num.

(** A double: the rational it denotes, an infinity, or NaN.  The two zeros
    are identified (no operation of the page tells them apart). *)
Inductive num : Type :=
| Finite (q : Q)
| Infinite (negative : bool)
| NaN.

Definition of_Z (z : Z) : num := Finite (inject_Z z).

(** [Math.abs] *)
Definition Math_abs (x : num) : num :=
  match x with
  | Finite q => Finite (Qabs q)
  | Infinite _ => Infinite false
  | NaN => NaN
  end.

(** [x > y] on numbers; false as soon as one side is NaN. *)
Definition gt (x y : num) : bool :=
  match x, y with
  | NaN, _ | _, NaN => false
  | Finite p, Finite q => negb (Qle_bool p q)
  | Infinite nx, Finite _ => negb nx
  | Finite _, Infinite ny => ny
  | Infinite nx, Infinite ny => (negb nx && ny)%bool
  end.

(** [x <= y] on numbers; false as soon as one side is NaN. *)
Definition le (x y : num) : bool :=
  match x, y with
  | NaN, _ | _, NaN => false
  | Finite p, Finite q => Qle_bool p q
  | Infinite nx, Finite _ => nx
  | Finite _, Infinite ny => negb ny
  | Infinite nx, Infinite ny => (nx || negb ny)%bool
  end.

(** Falsy numbers are the zeros and NaN. *)
Definition truthy (x : num) : bool :=
  match x with
  | Finite q => negb (Z.eqb (Qnum q) 0)
  | Infinite _ => true
  | NaN => false
  end.

Open Scope Z_scope.

(** Nearest integer to [n / d] for [0 <= n], [0 < d], ties to even. *)
Definition round_half_even (n d : Z) : Z :=
  let q := n / d in
  let r := n mod d in
  if 2 * r <? d then q
  else if d <? 2 * r then q + 1
  else if Z.even q then q else q + 1.

(** [floor (log2 (n / d))] for [0 < n], [0 < d]. *)
Definition floor_log2 (n d : Z) : Z :=
  let l := Z.log2 n - Z.log2 d in
  let above := if 0 <=? l then d * 2 ^ l <=? n else d <=? n * 2 ^ (- l) in
  if above then l else l - 1.

(** The double nearest to [n / d] ([0 <= n], [0 < d]): round to nearest,
    ties to even, 53 bits of precision, gradual underflow below [2^-1022],
    overflow to infinity from [2^1024]. *)
Definition binary64 (n d : Z) : num :=
  if n =? 0 then Finite 0%Q
  else
    let e := Z.max (floor_log2 n d) (-1022) in
    let sh := 52 - e in
    let m := if 0 <=? sh then round_half_even (n * 2 ^ sh) d
             else round_half_even n (d * 2 ^ (- sh)) in
    if (1023 <? e) || ((e =? 1023) && (2 ^ 53 <=? m)) then Infinite false
    else if 0 <=? sh then Finite (Qred (Qmake m (Z.to_pos (2 ^ sh))))
    else Finite (inject_Z (m * 2 ^ (- sh))).

Definition negate (x : num) : num :=
  match x with
  | Finite q => Finite (Qopp q)
  | Infinite b => Infinite (negb b)
  | NaN => NaN
  end.

Close Scope Z_scope.

End Num.

Import Num.

(* ------------------------------------------------------------------ *)
(** ** [parseFloat] *)

Module Float.

Definition digit_val (c : char) : Z := (Z.of_N c - 48)%Z.

Definition digits_value (ds : str) : Z :=
  fold_left (fun acc c => (10 * acc + digit_val c)%Z) ds 0%Z.

Fixpoint starts_with (p s : str) : bool :=
  match p, s with
  | [], _ => true
  | x :: p', y :: s' => (N.eqb x y && starts_with p' s')%bool
  | _ :: _, [] => false
  end.

(** A leading [+] or [-]: whether it is a minus, and what follows it. *)
Definition read_sign (s : str) : bool * str :=
  match s with
  | c :: s' =>
      if is_char "-" c then (true, s')
      else if is_char "+" c then (false, s')
      else (false, s)
  | [] => (false, s)
  end.

(** The fraction digits after a decimal point, and what follows them. *)
Definition read_fraction (s : str) : str * str :=
  match s with
  | c :: s' =>
      if is_char "." c then (takeWhile is_digit s', dropWhile is_digit s')
      else ([], s)
  | [] => ([], s)
  end.

(** The value of an exponent part [e±ddd], 0 when there is none. *)
Definition read_exponent (s : str) : Z :=
  match s with
  | c :: s' =>
      if (is_char "e" c || is_char "E" c)%bool then
        let (neg, s'') := read_sign s' in
        match takeWhile is_digit s'' with
        | [] => 0%Z
        | ds => if neg then (- digits_value ds)%Z else digits_value ds
        end
      else 0%Z
  | [] => 0%Z
  end.

(** The double for [n * 10^k], [0 <= n]. *)
Definition decimal_to_num (n k : Z) : num :=
  if (0 <=? k)%Z then binary64 (n * 10 ^ k) 1 else binary64 n (10 ^ (- k)).

(** The unsigned literal at the head of [s], negated when [neg]: the
    word [Infinity], or digits with an optional fraction and exponent. *)
Definition read_literal (neg : bool) (s : str) : num :=
  if starts_with (lit "Infinity") s then Infinite neg
  else
    let ip := takeWhile is_digit s in
    let (fp, s') := read_fraction (dropWhile is_digit s) in
    match ip ++ fp with
    | [] => NaN
    | ds =>
        let k := (read_exponent s' - Z.of_nat (length fp))%Z in
        let x := decimal_to_num (digits_value ds) k in
        if neg then negate x else x
    end.

(** [parseFloat]: skip leading white space, read the longest prefix that
    is a decimal literal, and round its value to a double; NaN when there
    is no such prefix. *)
Definition parseFloat (input : str) : num :=
  let (neg, s) := read_sign (trimStart input) in
  read_literal neg s.

End Float.

Import Float.

(* ------------------------------------------------------------------ *)
(** ** Regular expressions *)

Module RegExp.

(** The fragment of the pattern language the page uses.  Quantifiers apply
    to character classes; alternatives are tried left to right. *)
Inductive regex : Type :=
| Empty
| Class (p : char -> bool)
| Seq (r1 r2 : regex)
| Alt (r1 r2 : regex)
| Star (p : char -> bool)
| Group (i : nat) (r : regex)
| Bol
| Eol.

(** [r?], greedy *)
Definition Opt (r : regex) : regex := Alt r Empty.

(** [c+], greedy *)
Definition Plus (p : char -> bool) : regex := Seq (Class p) (Star p).

(** [c{0,n}], greedy *)
Fixpoint UpTo (n : nat) (p : char -> bool) : regex :=
  match n with
  | 0 => Empty
  | S n' => Opt (Seq (Class p) (UpTo n' p))
  end.

(** [c{lo,lo+more}], greedy *)
Fixpoint Repeat (lo more : nat) (p : char -> bool) : regex :=
  match lo with
  | 0 => UpTo more p
  | S lo' => Seq (Class p) (Repeat lo' more p)
  end.

(** A position of the matcher: the index in the input, the input from
    there on, and the captures recorded so far (latest first). *)
Record mstate : Type := MState {
  pos : nat;
  rest : str;
  caps : list (nat * str)
}.

(** The ways [c*] can match at (n, s), longest first. *)
Fixpoint star (p : char -> bool) (n : nat) (s : str) (c : list (nat * str))
  : list mstate :=
  match s with
  | x :: s' =>
      if p x then star p (S n) s' c ++ [MState n s c] else [MState n s c]
  | [] => [MState n s c]
  end.

(** All the ways [r] can match at [st], in the order backtracking tries
    them. *)
Fixpoint run (r : regex) (st : mstate) : list mstate :=
  match r with
  | Empty => [st]
  | Class p =>
      match rest st with
      | x :: s' => if p x then [MState (S (pos st)) s' (caps st)] else []
      | [] => []
      end
  | Seq r1 r2 => flat_map (run r2) (run r1 st)
  | Alt r1 r2 => run r1 st ++ run r2 st
  | Star p => star p (pos st) (rest st) (caps st)
  | Group i r =>
      List.map
        (fun st' =>
           MState (pos st') (rest st')
                  ((i, firstn (pos st' - pos st) (rest st)) :: caps st'))
        (run r st)
  | Bol => match pos st with 0 => [st] | S _ => [] end
  | Eol => match rest st with [] => [st] | _ :: _ => [] end
  end.

(** The first match of [r] in [s], looking from index [n] on ([s] is the
    input from [n]). *)
Fixpoint search (r : regex) (n : nat) (s : str) : option mstate :=
  match run r (MState n s []) with
  | st :: _ => Some st
  | [] =>
      match s with
      | [] => None
      | _ :: s' => search r (S n) s'
      end
  end.

(** [s.match(r)] for a regular expression without flags: the end state of
    the first match, or [None] for [null]. *)
Definition exec (r : regex) (s : str) : option mstate := search r 0 s.

(** [m[i]]: [None] stands for [undefined]. *)
Fixpoint lookup_group (i : nat) (c : list (nat * str)) : option str :=
  match c with
  | [] => None
  | (j, w) :: c' => if Nat.eqb i j then Some w else lookup_group i c'
  end.

Definition group (m : mstate) (i : nat) : option str := lookup_group i (caps m).

(** The matcher went from [st] to [st'] over the word [w] and recorded
    nothing. *)
Definition consumes (st : mstate) (w : str) (st' : mstate) : Prop :=
  rest st = w ++ rest st' /\
  pos st' = pos st + length w /\
  caps st' = caps st.

(** [r] matches exactly the words of [L], and records nothing. *)
Definition has_lang (r : regex) (L : str -> Prop) : Prop :=
  forall st st', In st' (run r st) <-> exists w, L w /\ consumes st w st'.

End RegExp.

Import RegExp.

(* ------------------------------------------------------------------ *)
(** ** Input classification *)

Definition is_sep (c : char) : bool := (is_char "," c || is_space c)%bool.

(** The characters a number is written with. *)
Definition is_numchar (c : char) : bool :=
  (is_digit c || is_char "-" c || is_char "." c)%bool.

(** [-?\d{1,n}(?:\.\d+)?] *)
Definition numberRe (n : nat) : regex :=
  Seq (Opt (Class (is_char "-")))
      (Seq (Repeat 1 (n - 1) is_digit)
           (Opt (Seq (Class (is_char ".")) (Plus is_digit)))).

(** [/^\s*(-?\d{1,2}(?:\.\d+)?)[,\s]+(-?\d{1,3}(?:\.\d+)?)\s*$/] *)
Definition latLonRe : regex :=
  Seq Bol
      (Seq (Star is_space)
           (Seq (Group 1 (numberRe 2))
                (Seq (Plus is_sep)
                     (Seq (Group 2 (numberRe 3))
                          (Seq (Star is_space) Eol))))).

Definition isLatLonInput (q : str) : bool :=
  match exec latLonRe (trim q) with
  | Some _ => true
  | None => false
  end.

(** [parseFloat(m[i])]; an undefined group reads as ["undefined"], which
    parses to NaN. *)
Definition parseFloat_group (m : mstate) (i : nat) : num :=
  match group m i with
  | Some w => parseFloat w
  | None => NaN
  end.

Definition parseLatLon (q : str) : option (num * num) :=
  match exec latLonRe (trim q) with
  | None => None
  | Some m =>
      let lat := parseFloat_group m 1 in
      let lon := parseFloat_group m 2 in
      if (gt (Math_abs lat) (of_Z 90) || gt (Math_abs lon) (of_Z 180))%bool
      then None
      else Some (lat, lon)
  end.

(* ------------------------------------------------------------------ *)
(** ** Values and exceptions *)

Module Js.

(** What [JSON.parse] produces, and [undefined]. *)
#[warnings="-register-all"]
Inductive value : Type :=
| VUndefined
| VNull
| VBool (b : bool)
| VNum (x : num)
| VStr (s : str)
| VArr (items : list value)
| VObj (fields : list (str * value)).

(** A thrown value: its constructor name and its [message], if it has one. *)
Record exn : Type := Exn {
  exn_name : str;
  exn_message : option str
}.

(** [new Error(message)] *)
Definition new_Error (message : string) : exn :=
  Exn (lit "Error") (Some (lit message)).

(** The error the engine raises on a property read of [null] or
    [undefined] and on a call of something that is not a function. *)
Definition type_error (message : string) : exn :=
  Exn (lit "TypeError") (Some (lit message)).

Definition result (A : Type) : Type := (exn + A)%type.

Definition truthy (v : value) : bool :=
  match v with
  | VUndefined | VNull => false
  | VBool b => b
  | VNum x => Num.truthy x
  | VStr s => match s with [] => false | _ :: _ => true end
  | VArr _ | VObj _ => true
  end.

Definition nullish (v : value) : bool :=
  match v with
  | VUndefined | VNull => true
  | _ => false
  end.

Fixpoint lookup_field (k : str) (fields : list (str * value)) : value :=
  match fields with
  | [] => VUndefined
  | (k', v) :: fields' => if Str.eqb k k' then v else lookup_field k fields'
  end.

(** The canonical text of an array index. *)
Definition index_key (i : nat) : str :=
  lit (NilZero.string_of_uint (Nat.to_uint i)).

(** [v?.k], for the property names the page reads (none of them is
    defined on a builtin prototype). *)
Definition get_opt (v : value) (k : string) : value :=
  match v with
  | VObj fields => lookup_field (lit k) fields
  | _ => VUndefined
  end.

(** [v.k]: as [v?.k], but [null] and [undefined] have no properties. *)
Definition get (v : value) (k : string) : result value :=
  if nullish v
  then inl (type_error "Cannot read properties of null or undefined")
  else inr (get_opt v k).

(** [v?.[i]] *)
Definition index_opt (v : value) (i : nat) : value :=
  match v with
  | VArr items => nth i items VUndefined
  | VStr s =>
      match nth_error s i with
      | Some c => VStr [c]
      | None => VUndefined
      end
  | VObj fields => lookup_field (index_key i) fields
  | _ => VUndefined
  end.

(** [a || b] *)
Definition or_else (a b : value) : value := if truthy a then a else b.

(** [e?.message ?? fallback], [e] being what a [catch] received *)
Definition message_or (e : exn) (fallback : string) : str :=
  match exn_message e with
  | Some m => m
  | None => lit fallback
  end.

(** [f(x, i)] on the elements and their indices from [i] on, left to
    right, stopping at the first call that throws. *)
Fixpoint traverse_from (A B : Type) (i : nat) (f : A -> nat -> result B)
  (l : list A) : result (list B) :=
  match l with
  | [] => inr []
  | x :: l' =>
      match f x i with
      | inl e => inl e
      | inr y =>
          match traverse_from (S i) f l' with
          | inl e => inl e
          | inr ys => inr (y :: ys)
          end
      end
  end.

(** [v.map(f)]: only arrays have a [map]. *)
Definition array_map (B : Type) (v : value) (f : value -> nat -> result B)
  : result (list B) :=
  match v with
  | VArr items => traverse_from 0 f items
  | _ =>
      if nullish v
      then inl (type_error "Cannot read properties of null or undefined")
      else inl (type_error "map is not a function")
  end.

End Js.

Import Js.

(* ------------------------------------------------------------------ *)
(** ** The component state *)

Module Model.

(** [interface GeoResult].  The fields hold what the geocoding payload
    held; the label of a place made from bare coordinates,
    [`(${lat.toFixed(3)}, ${lon.toFixed(3)})`], is kept unformatted. *)
Inductive label : Type :=
| Name (v : value)
| CoordLabel (lat lon : num).

Record GeoResult : Type := {
  id : value;
  name : label;
  latitude : value;
  longitude : value;
  country : value;
  admin1 : value;
  admin2 : value;
  admin3 : value;
  admin4 : value
}.

(** [interface WeatherResponse], as [resolveAndFetch] fills it from the
    forecast payload. *)
Record WeatherResponse : Type := {
  w_latitude : value;
  w_longitude : value;
  w_timezone : value;
  current : value;
  daily : value
}.

Inductive Units : Type := metric | imperial.

(** The [useState] cells of [Page]. *)
Record State : Type := {
  query : str;
  units : Units;
  loading : bool;
  error : option str;
  place : option GeoResult;
  weather : option WeatherResponse;
  suggestions : list GeoResult
}.

Definition initial : State :=
  {| query := []; units := metric; loading := false; error := None;
     place := None; weather := None; suggestions := [] |}.

Definition with_query (q : str) (s : State) : State :=
  {| query := q; units := units s; loading := loading s; error := error s;
     place := place s; weather := weather s; suggestions := suggestions s |}.

Definition with_loading (b : bool) (s : State) : State :=
  {| query := query s; units := units s; loading := b; error := error s;
     place := place s; weather := weather s; suggestions := suggestions s |}.

Definition with_error (e : option str) (s : State) : State :=
  {| query := query s; units := units s; loading := loading s; error := e;
     place := place s; weather := weather s; suggestions := suggestions s |}.

Definition with_place (p : option GeoResult) (s : State) : State :=
  {| query := query s; units := units s; loading := loading s;
     error := error s; place := p; weather := weather s;
     suggestions := suggestions s |}.

Definition with_weather (w : option WeatherResponse) (s : State) : State :=
  {| query := query s; units := units s; loading := loading s;
     error := error s; place := place s; weather := w;
     suggestions := suggestions s |}.

Definition with_suggestions (l : list GeoResult) (s : State) : State :=
  {| query := query s; units := units s; loading := loading s;
     error := error s; place := place s; weather := weather s;
     suggestions := l |}.

(** A query-string parameter: a literal of the source or a user text, or
    [String(v)] of a value, kept unformatted. *)
Inductive param : Type :=
| Text (s : str)
| StringOf (v : value).

Record Url : Type := {
  endpoint : str;
  params : list (str * param)
}.

(** A [Response]: only its status is looked at, through [ok]. *)
Record Response : Type := { status : N }.

Definition ok (r : Response) : bool :=
  (N.leb 200 (status r) && N.leb (status r) 299)%bool.

End Model.

Import Model.

(* ------------------------------------------------------------------ *)
(** ** Asynchronous handlers *)

Module Async.

(** A handler that ran up to its end, up to an uncaught exception, or up
    to an [await] of the network.  The state is the component state when
    it stopped; a suspended handler is resumed with the outcome of the
    operation and with the state of that later moment, which other
    handlers may have changed in between. *)
Inductive Run (A : Type) : Type :=
| Ret (a : A) (s : State)
| Throw (e : exn) (s : State)
| AwaitFetch (u : Url) (s : State) (k : result Response -> State -> Run A)
| AwaitJson (r : Response) (s : State) (k : result value -> State -> Run A).

Arguments Throw {A} e s.
Arguments AwaitFetch {A} u s k.
Arguments AwaitJson {A} r s k.

Definition Prog (A : Type) : Type := State -> Run A.

Definition ret (A : Type) (a : A) : Prog A := fun s => Ret a s.

Definition throw {A : Type} (e : exn) : Prog A := fun s => Throw e s.

Fixpoint bind_run (A B : Type) (r : Run A) (f : A -> Prog B) : Run B :=
  match r with
  | Ret a s => f a s
  | Throw e s => Throw e s
  | AwaitFetch u s k => AwaitFetch u s (fun o s' => bind_run (k o s') f)
  | AwaitJson x s k => AwaitJson x s (fun o s' => bind_run (k o s') f)
  end.

Definition bind (A B : Type) (p : Prog A) (f : A -> Prog B) : Prog B :=
  fun s => bind_run (p s) f.

(** [try { p } catch (e) { h e }] *)
Fixpoint catch_run (A : Type) (r : Run A) (h : exn -> Prog A) : Run A :=
  match r with
  | Ret a s => Ret a s
  | Throw e s => h e s
  | AwaitFetch u s k => AwaitFetch u s (fun o s' => catch_run (k o s') h)
  | AwaitJson x s k => AwaitJson x s (fun o s' => catch_run (k o s') h)
  end.

Definition try_catch (A : Type) (p : Prog A) (h : exn -> Prog A) : Prog A :=
  fun s => catch_run (p s) h.

(** [try { p } finally { f }] *)
Fixpoint finally_run (A : Type) (r : Run A) (f : Prog unit) : Run A :=
  match r with
  | Ret a s => bind_run (f s) (fun _ => ret a)
  | Throw e s => bind_run (f s) (fun _ => throw e)
  | AwaitFetch u s k => AwaitFetch u s (fun o s' => finally_run (k o s') f)
  | AwaitJson x s k => AwaitJson x s (fun o s' => finally_run (k o s') f)
  end.

Definition try_finally (A : Type) (p : Prog A) (f : Prog unit) : Prog A :=
  fun s => finally_run (p s) f.

(** A synchronous computation that may throw. *)
Definition lift (A : Type) (r : result A) : Prog A :=
  match r with
  | inl e => throw e
  | inr a => ret a
  end.

(** [await fetch(u)] *)
Definition fetch (u : Url) : Prog Response :=
  fun s => AwaitFetch u s (fun o => lift o).

(** [await r.json()] *)
Definition json (r : Response) : Prog value :=
  fun s => AwaitJson r s (fun o => lift o).

Definition update (f : State -> State) : Prog unit := fun s => Ret tt (f s).

Definition setLoading (b : bool) : Prog unit := update (with_loading b).
Definition setError (e : option str) : Prog unit := update (with_error e).
Definition setPlace (p : GeoResult) : Prog unit := update (with_place (Some p)).
Definition setWeather (w : option WeatherResponse) : Prog unit :=
  update (with_weather w).
Definition setSuggestions (l : list GeoResult) : Prog unit :=
  update (with_suggestions l).

Declare Scope prog_scope.
Delimit Scope prog_scope with prog.
Notation "x <- p ;; q" := (bind p (fun x => q))
  (at level 61, p at next level, right associativity) : prog_scope.
Notation "p ;; q" := (bind p (fun _ => q))
  (at level 61, right associativity) : prog_scope.

(** The state a run stopped in. *)
Definition store (A : Type) (t : Run A) : State :=
  match t with
  | Ret _ s | Throw _ s | AwaitFetch _ s _ | AwaitJson _ s _ => s
  end.

(** What the network hands back to a suspended handler. *)
Inductive reply : Type :=
| Fetched (o : result Response)
| Parsed (o : result value).

(** Resume [t] with [r] in the state [s] of the moment; [None] when [t]
    is not waiting for a reply of that kind. *)
Definition resume (A : Type) (t : Run A) (r : reply) (s : State)
  : option (Run A) :=
  match t, r with
  | AwaitFetch _ _ k, Fetched o => Some (k o s)
  | AwaitJson _ _ k, Parsed o => Some (k o s)
  | _, _ => None
  end.

(** Resume [t] in state [s] with the first reply, and go on with the
    others, no other handler running in between. *)
Fixpoint deliver (A : Type) (t : Run A) (s : State) (rs : list reply)
  : option (Run A) :=
  match rs with
  | [] => Some t
  | r :: rs' =>
      match resume t r s with
      | Some t' => deliver t' (store t') rs'
      | None => None
      end
  end.

(** A handler run on its own: every reply finds the state as the handler
    left it. *)
Definition alone (A : Type) (t : Run A) (rs : list reply) : option (Run A) :=
  deliver t (store t) rs.

End Async.

Import Async.

(* ------------------------------------------------------------------ *)
(** ** The page *)

Module Page.

Local Open Scope prog_scope.

Definition geocoding_url (text : str) (count : string) : Url :=
  {| endpoint := lit "https://geocoding-api.open-meteo.com/v1/search";
     params := [ (lit "name", Text text);
                 (lit "count", Text (lit count));
                 (lit "language", Text (lit "en")) ] |}.

Definition forecast_url (lat lon : value) : Url :=
  {| endpoint := lit "https://api.open-meteo.com/v1/forecast";
     params :=
       [ (lit "latitude", StringOf lat);
         (lit "longitude", StringOf lon);
         (lit "timezone", Text (lit "auto"));
         (lit "current",
          Text (lit "temperature_2m,apparent_temperature,precipitation,weather_code,wind_speed_10m,relative_humidity_2m"));
         (lit "daily",
          Text (lit "weather_code,temperature_2m_max,temperature_2m_min,precipitation_probability_max,wind_speed_10m_max"));
         (lit "forecast_days", Text (lit "7")) ] |}.

(** The object literal both geocoding paths build from a result [r];
    reading [r.id] throws when [r] is [null] or [undefined]. *)
Definition geoResult (r : value) : result GeoResult :=
  match get r "id" with
  | inl e => inl e
  | inr i =>
      inr {| id := i;
             name := Name (get_opt r "name");
             latitude := get_opt r "latitude";
             longitude := get_opt r "longitude";
             country := get_opt r "country";
             admin1 := get_opt r "admin1";
             admin2 := get_opt r "admin2";
             admin3 := get_opt r "admin3";
             admin4 := get_opt r "admin4" |}
  end.

Definition fetchSuggestions (text : str) : Prog unit :=
  if (match text with [] => true | _ :: _ => false end
      || isLatLonInput text)%bool
  then setSuggestions []
  else
    try_catch
      (res <- fetch (geocoding_url text "5") ;;
       data <- json res ;;
       l <- lift (array_map (or_else (get_opt data "results") (VArr []))
                            (fun r _ => geoResult r)) ;;
       setSuggestions l)
      (fun _ => ret tt).

(** The place shown for bare coordinates; [toFixed] exists on numbers
    only. *)
Definition coordinate_place (lat lon : value) : result GeoResult :=
  match lat, lon with
  | VNum x, VNum y =>
      inr {| id := VNum (of_Z 0);
             name := CoordLabel x y;
             latitude := lat;
             longitude := lon;
             country := VUndefined;
             admin1 := VUndefined;
             admin2 := VUndefined;
             admin3 := VUndefined;
             admin4 := VUndefined |}
  | _, _ => inl (type_error "toFixed is not a function")
  end.

Definition resolveAndFetch (lat lon : value) (chosenPlace : option GeoResult)
  : Prog unit :=
  setLoading true ;;
  setError None ;;
  setWeather None ;;
  try_finally
    (try_catch
       (res <- fetch (forecast_url lat lon) ;;
        (if negb (ok res) then throw (new_Error "Failed to fetch weather")
         else ret tt) ;;
        raw <- json res ;;
        current <- lift (get raw "current") ;;
        daily <- lift (get raw "daily") ;;
        la <- lift (get raw "latitude") ;;
        lo <- lift (get raw "longitude") ;;
        tz <- lift (get raw "timezone") ;;
        setWeather (Some {| w_latitude := la; w_longitude := lo;
                            w_timezone := tz; current := current;
                            daily := daily |}) ;;
        match chosenPlace with
        | Some p => setPlace p
        | None => p <- lift (coordinate_place lat lon) ;; setPlace p
        end)
       (fun e => setError (Some (message_or e "Something went wrong"))))
    (setLoading false).

Definition handleSubmit : Prog unit :=
  fun s0 =>
    let query := query s0 in
    (setError None ;;
     match parseLatLon query with
     | Some (lat, lon) => resolveAndFetch (VNum lat) (VNum lon) None
     | None =>
         try_finally
           (try_catch
              (setLoading true ;;
               res <- fetch (geocoding_url (trim query) "1") ;;
               data <- json res ;;
               let first := index_opt (get_opt data "results") 0 in
               if negb (truthy first)
               then throw (new_Error "No matching locations found")
               else
                 chosen <- lift (geoResult first) ;;
                 resolveAndFetch (latitude chosen) (longitude chosen)
                                 (Some chosen))
              (fun e =>
                 setError (Some (message_or e "Failed to resolve location"))))
           (setLoading false)
     end) s0.

(** An entry of the five-day strip. *)
Record Day : Type := {
  date : value;
  code : value;
  tmax : value;
  tmin : value;
  ppop : value;
  wmax : value
}.

(** The [fiveDay] memo; [d] is not [null] or [undefined] where its
    properties are read, so [d.k] is [d?.k] there. *)
Definition fiveDay (weather : option WeatherResponse) : result (list Day) :=
  match weather with
  | None => inr []
  | Some w =>
      let d := daily w in
      if negb (truthy d) then inr []
      else
        match
          array_map (get_opt d "time")
            (fun t i =>
               inr {| date := t;
                      code := index_opt (get_opt d "weather_code") i;
                      tmax := index_opt (get_opt d "temperature_2m_max") i;
                      tmin := index_opt (get_opt d "temperature_2m_min") i;
                      ppop :=
                        index_opt (get_opt d "precipitation_probability_max") i;
                      wmax := index_opt (get_opt d "wind_speed_10m_max") i |})
        with
        | inl e => inl e
        | inr out => inr (firstn 5 out)
        end
  end.

End Page.

Import Page.

(* ------------------------------------------------------------------ *)
(** ** The coordinate pattern, as the specification words it *)

Module Pattern.

(** Optional minus sign, one to [n] integer digits, optional fraction. *)
Definition is_number (n : nat) (w : str) : Prop :=
  exists sign ip fp,
    w = sign ++ ip ++ fp /\
    (sign = [] \/ sign = lit "-") /\
    (1 <= length ip <= n) /\
    forallb is_digit ip = true /\
    (fp = [] \/
     exists ds, fp = lit "." ++ ds /\ ds <> [] /\ forallb is_digit ds = true).

(** [t] is a latitude [a], a separator of commas and white space, and a
    longitude [b]. *)
Definition coord_pattern (t a b : str) : Prop :=
  exists sep,
    t = a ++ sep ++ b /\
    is_number 2 a /\
    sep <> [] /\ forallb is_sep sep = true /\
    is_number 3 b.

(** The bounds check on the parsed numbers. *)
Definition in_bounds (lat lon : num) : Prop :=
  le (Math_abs lat) (of_Z 90) = true /\ le (Math_abs lon) (of_Z 180) = true.

End Pattern.

Import Pattern.

(* ------------------------------------------------------------------ *)
(** ** Forecast shaping, as the specification words it *)

Module Shaping.

(** The element of a series at index [i]: taken from the array when the
    array exists and has an element there, [undefined] otherwise. *)
Definition element (series : value) (i : nat) : value :=
  match series with
  | VArr items => nth i items VUndefined
  | _ => VUndefined
  end.

(** The entry for index [i] of the time array [ts] of the payload [d]. *)
Definition entry (d : value) (ts : list value) (i : nat) : Day :=
  {| date := nth i ts VUndefined;
     code := element (get_opt d "weather_code") i;
     tmax := element (get_opt d "temperature_2m_max") i;
     tmin := element (get_opt d "temperature_2m_min") i;
     ppop := element (get_opt d "precipitation_probability_max") i;
     wmax := element (get_opt d "wind_speed_10m_max") i |}.

(** One entry per index of the time array, in its order, the first five
    only. *)
Definition shape (d : value) (ts : list value) : list Day :=
  List.map (entry d ts) (seq 0 (Nat.min 5 (length ts))).

(** A series is an array, or is left out. *)
Definition series (v : value) : Prop :=
  v = VUndefined \/ exists items, v = VArr items.

(** [d] has the shape of [interface DailyWeather] with the time array
    [ts]; any of the other series may be left out. *)
Definition is_daily (d : value) (ts : list value) : Prop :=
  (exists fields, d = VObj fields) /\
  get_opt d "time" = VArr ts /\
  series (get_opt d "weather_code") /\
  series (get_opt d "temperature_2m_max") /\
  series (get_opt d "temperature_2m_min") /\
  series (get_opt d "precipitation_probability_max") /\
  series (get_opt d "wind_speed_10m_max").

End Shaping.

Import Shaping.

(* ------------------------------------------------------------------ *)
(** ** Scenarios *)

Module Scenario.

(** The geocoding payload [data] holds no result: [results] is left out
    or is the empty array. *)
Definition no_results (data : value) : Prop :=
  get_opt data "results" = VUndefined \/ get_opt data "results" = VArr [].

(** The message [handleSubmit] reports when the geocoder finds nothing. *)
Definition not_found_message : str := lit "No matching locations found".

(** The message [resolveAndFetch] reports for a response that is not ok. *)
Definition forecast_failed_message : str := lit "Failed to fetch weather".

(** The ways an autosuggest lookup fails: the request does not complete,
    the body is not JSON, or the payload holds no result. *)
Inductive suggest_failure : list reply -> Prop :=
| network_failure (e : exn) :
    suggest_failure [Fetched (inl e)]
| malformed_response (r : Response) (e : exn) :
    suggest_failure [Fetched (inr r); Parsed (inl e)]
| zero_results (r : Response) (data : value) :
    no_results data ->
    suggest_failure [Fetched (inr r); Parsed (inr data)].

(** The outcome of a forecast request that sends [resolveAndFetch] to its
    [catch]: the request does not complete, or the response is not ok. *)
Definition forecast_failure (o : result Response) : Prop :=
  match o with
  | inl _ => True
  | inr r => ok r = false
  end.

(** The message shown for such an outcome. *)
Definition forecast_failure_message (o : result Response) : str :=
  match o with
  | inl e => message_or e "Something went wrong"
  | inr _ => forecast_failed_message
  end.

(** The weather view [resolveAndFetch] stores for the forecast payload
    [raw]. *)
Definition view (raw : value) : WeatherResponse :=
  {| w_latitude := get_opt raw "latitude";
     w_longitude := get_opt raw "longitude";
     w_timezone := get_opt raw "timezone";
     current := get_opt raw "current";
     daily := get_opt raw "daily" |}.

(** The replies [rs] take a submission of [q] to a stored forecast
    payload [raw]: for coordinates an ok forecast response and its body;
    for free text, before those, a geocoding response whose payload holds
    a first result. *)
Definition succeeds (q : str) (rs : list reply) (raw : value) : Prop :=
  nullish raw = false /\
  match parseLatLon q with
  | Some _ =>
      exists r, ok r = true /\ rs = [Fetched (inr r); Parsed (inr raw)]
  | None =>
      exists g data r,
        truthy (index_opt (get_opt data "results") 0) = true /\
        ok r = true /\
        rs = [Fetched (inr g); Parsed (inr data);
              Fetched (inr r); Parsed (inr raw)]
  end.

(** The place a submission of [q] shows when the replies [rs] take it to
    a forecast. *)
Definition shown_place (q : str) (rs : list reply) : option GeoResult :=
  match parseLatLon q, rs with
  | Some (lat, lon), _ =>
      match coordinate_place (VNum lat) (VNum lon) with
      | inr p => Some p
      | inl _ => None
      end
  | None, _ :: Parsed (inr data) :: _ =>
      match geoResult (index_opt (get_opt data "results") 0) with
      | inr p => Some p
      | inl _ => None
      end
  | None, _ => None
  end.

(** Two submissions in a row.  [qA] is submitted in state [s]; before any
    reply arrives the query is edited to [qB] and submitted; the replies
    [rsB] to the second submission arrive and take it to its end; only
    then do the replies [rsA] to the first one arrive.  The result is the
    state the second submission ended in and the state at the very end. *)
Definition race (s : State) (qA qB : str) (rsB rsA : list reply)
  : option (State * State) :=
  let tA := handleSubmit (with_query qA s) in
  let tB := handleSubmit (with_query qB (store tA)) in
  match alone tB rsB with
  | Some (Ret _ sB) =>
      match deliver tA sB rsA with
      | Some (Ret _ sA) => Some (sB, sA)
      | _ => None
      end
  | _ => None
  end.

End Scenario.

Import Scenario.

(* ------------------------------------------------------------------ *)
(** ** Device location *)

Module Location.

Local Open Scope prog_scope.

(** The options handed to [getCurrentPosition], times in milliseconds. *)
Record PositionOptions : Type := {
  enableHighAccuracy : bool;
  timeout : N;
  maximumAge : N
}.

(** What the device answers: a position, or an error with its message. *)
Inductive located : Type :=
| Position (latitude longitude : num)
| PositionError (message : str).

(** A call of [navigator.geolocation.getCurrentPosition]: the two
    callbacks and the options. *)
Record PositionRequest : Type := {
  onPosition : num -> num -> Prog unit;
  onPositionError : str -> Prog unit;
  options : PositionOptions
}.

(** [err.message || fallback] on a string *)
Definition text_or (message : str) (fallback : string) : str :=
  match message with
  | [] => lit fallback
  | _ :: _ => message
  end.

(** [useMyLocation], [supported] telling whether [navigator] has a
    [geolocation]: the state it leaves at once, and the position request
    it made, if any. *)
Definition useMyLocation (supported : bool) (s : State)
  : State * option PositionRequest :=
  let s := with_error None s in
  if negb supported
  then (with_error (Some (lit "Geolocation not supported in this browser")) s,
        None)
  else
    (with_loading true s,
     Some {| onPosition :=
               fun latitude longitude =>
                 resolveAndFetch (VNum latitude) (VNum longitude) None;
             onPositionError :=
               fun message =>
                 setLoading false ;;
                 setError (Some (text_or message "Failed to get your location"));
             options := {| enableHighAccuracy := true;
                           timeout := 10000;
                           maximumAge := 300000 |} |}).

(** The callback the device's answer [a] runs, in the state of that
    moment. *)
Definition answer (r : PositionRequest) (a : located) : Prog unit :=
  match a with
  | Position latitude longitude => onPosition r latitude longitude
  | PositionError message => onPositionError r message
  end.

(** [useMyLocation] and then the device's answer, nothing else happening
    in between; [None] when no position was asked for. *)
Definition locate (supported : bool) (a : located) (s : State)
  : option (Run unit) :=
  match useMyLocation supported s with
  | (s1, Some r) => Some (answer r a s1)
  | (_, None) => None
  end.

End Location.

Import Location.

(* ------------------------------------------------------------------ *)
(** ** The autosuggest timer *)

Module Debounce.

(** A pending [setTimeout] of the autosuggest effect: the time it is due,
    in milliseconds, and the query its callback holds. *)
Record Timer : Type := {
  due : N;
  text : str
}.

(** The page with the timer of its last effect, if still pending. *)
Record Typing : Type := {
  page : State;
  timer : option Timer
}.

(** The effect, run at time [now] after a render with a new query: the
    cleanup of the effect before it has cleared the old timer, and a new
    one is set, 300 ms ahead. *)
Definition effect (now : N) (s : State) : option Timer :=
  Some {| due := now + 300; text := query s |}.

(** The first render. *)
Definition mount (s : State) : Typing :=
  {| page := s; timer := effect 0 s |}.

(** [onChange] at time [now]: [setQuery(q)], and when that changes the
    query, a render and the effect. *)
Definition edit (now : N) (q : str) (t : Typing) : Typing :=
  if Str.eqb q (query (page t)) then t
  else
    let s := with_query q (page t) in
    {| page := s; timer := effect now s |}.

(** Time goes on to [now]: a timer that is due runs its callback,
    [fetchSuggestions] on its text.  The result is the page as the call
    leaves it, and the call made. *)
Definition elapse (now : N) (t : Typing) : Typing * list (N * str) :=
  match timer t with
  | Some tm =>
      if N.leb (due tm) now
      then ({| page := store (fetchSuggestions (text tm) (page t));
               timer := None |},
            [(due tm, text tm)])
      else (t, [])
  | None => (t, [])
  end.

(** Edits at the given times, in order; the result holds the lookups made
    on the way, each with the time it was due. *)
Fixpoint typing (edits : list (N * str)) (t : Typing)
  : Typing * list (N * str) :=
  match edits with
  | [] => (t, [])
  | (now, q) :: edits' =>
      let (t1, calls) := elapse now t in
      let (t2, calls') := typing edits' (edit now q t1) in
      (t2, calls ++ calls')
  end.

(** Keys that come less than 300 ms apart, each changing the text, the
    first one at [start] or later and changing [q0]. *)
Fixpoint burst (start : N) (q0 : str) (edits : list (N * str)) : Prop :=
  match edits with
  | [] => True
  | (now, q) :: edits' =>
      (start <= now)%N /\ Str.eqb q q0 = false /\
      match edits' with
      | [] => True
      | (next, _) :: _ => (next < now + 300)%N
      end /\
      burst now q edits'
  end.

(** No timer is due when the first of the edits comes. *)
Definition not_due (edits : list (N * str)) (t : Typing) : Prop :=
  match edits, timer t with
  | (now, _) :: _, Some tm => (now < due tm)%N
  | _, _ => True
  end.

(** A pending timer holds the query of the page. *)
Definition coherent (t : Typing) : Prop :=
  match timer t with
  | Some tm => text tm = query (page t)
  | None => True
  end.

End Debounce.

Import Debounce.

(* ------------------------------------------------------------------ *)
(** ** Whole numbers in decimal *)

Module Whole.

(** The decimal digits of [n]. *)
Definition digits_of (n : N) : str :=
  lit (NilZero.string_of_uint (N.to_uint n)).

(** A whole number as one types it: a minus sign when negative, then the
    digits. *)
Definition decimal (z : Z) : str :=
  match z with
  | Z0 => digits_of 0
  | Zpos p => digits_of (Npos p)
  | Zneg p => lit "-" ++ digits_of (Npos p)
  end.

(** [w] is one to [n] digits. *)
Definition digits_upto (n : nat) (w : str) : bool :=
  (forallb is_digit w && Nat.leb 1 (length w) && Nat.leb (length w) n)%bool.

(** [w] is one to [n] digits, after a minus sign or not. *)
Definition whole_number (n : nat) (w : str) : bool :=
  match w with
  | c :: w' => if is_char "-" c then digits_upto n w' else digits_upto n w
  | [] => false
  end.

(** The same number, written the same way. *)
Definition same (x y : num) : bool :=
  match x, y with
  | Finite p, Finite q =>
      (Z.eqb (Qnum p) (Qnum q) && Pos.eqb (Qden p) (Qden q))%bool
  | Infinite a, Infinite b => Bool.eqb a b
  | NaN, NaN => true
  | _, _ => false
  end.

(** The whole numbers from [- bound] to [bound]. *)
Definition upto (bound : nat) : list Z :=
  List.map (fun i => (Z.of_nat i - Z.of_nat bound)%Z) (seq 0 (2 * bound + 1)).

(** [decimal z] is a number of the coordinate pattern with at most [n]
    integer digits that parses to [z], within [bound] of zero. *)
Definition reads_back (n : nat) (bound : Z) (z : Z) : bool :=
  (whole_number n (decimal z)
   && same (parseFloat (decimal z)) (of_Z z)
   && le (Math_abs (of_Z z)) (of_Z bound))%bool.

End Whole.

Import Whole.

(* ------------------------------------------------------------------ *)
(** ** Text *)

Module Text.

Section Join.

Variable element : value -> result str.

(** [parts.join(sep)], [element] giving the text of an element: the
    elements are read from left to right, and the first one that throws
    ends the call. *)
Fixpoint join_with (sep : str) (parts : list value) : result str :=
  match parts with
  | [] => inr []
  | x :: parts' =>
      match element x with
      | inl e => inl e
      | inr a =>
          match parts' with
          | [] => inr a
          | _ :: _ =>
              match join_with sep parts' with
              | inl e => inl e
              | inr b => inr (a ++ sep ++ b)
              end
          end
      end
  end.

End Join.

Section Numbers.

(** [Number::toString] on a finite number other than zero, the one part of
    the language the page relies on that is taken as given. *)
Variable finite_to_string : Q -> str.

(** [Number::toString] *)
Definition Number_toString (x : num) : str :=
  match x with
  | NaN => lit "NaN"
  | Infinite false => lit "Infinity"
  | Infinite true => lit "-Infinity"
  | Finite q => if Z.eqb (Qnum q) 0 then lit "0" else finite_to_string q
  end.

(** Whether an object has a property of its own under [k]. *)
Definition has_own (k : string) (fields : list (str * value)) : bool :=
  existsb (fun kv => Str.eqb (lit k) (fst kv)) fields.

(** [ToString].  An array is its elements joined with commas, [null] and
    [undefined] among them counting as empty.  An object is
    ["[object Object]"], unless a property of its own hides the
    [toString] it inherits: what JSON holds cannot be called, so the
    conversion throws. *)
Fixpoint to_string (v : value) : result str :=
  match v with
  | VUndefined => inr (lit "undefined")
  | VNull => inr (lit "null")
  | VBool b => inr (if b then lit "true" else lit "false")
  | VNum x => inr (Number_toString x)
  | VStr s => inr s
  | VArr items =>
      join_with
        (fun x =>
           match x with
           | VUndefined | VNull => inr []
           | _ => to_string x
           end)
        (lit ",") items
  | VObj fields =>
      if has_own "toString" fields
      then inl (type_error "Cannot convert object to primitive value")
      else inr (lit "[object Object]")
  end.

(** The text [join] gives an element. *)
Definition element_text (x : value) : result str :=
  match x with
  | VUndefined | VNull => inr []
  | _ => to_string x
  end.

(** [parts.join(sep)] *)
Definition join (sep : str) (parts : list value) : result str :=
  join_with element_text sep parts.

(** The integer nearest to [n / d] for [0 <= n], [0 < d], the larger one
    of two. *)
Definition round_half_up (n d : Z) : Z :=
  if (d <=? 2 * (n mod d))%Z then (n / d + 1)%Z else (n / d)%Z.

(** [x.toFixed(f)] for [f] from 0 to 100. *)
Definition toFixed (f : nat) (x : num) : str :=
  match x with
  | Finite q =>
      let sign := if (Qnum q <? 0)%Z then lit "-" else [] in
      let a := Qabs q in
      if Qle_bool (inject_Z (10 ^ 21)) a
      then sign ++ Number_toString (Finite a)
      else
        let n := round_half_up (Qnum a * 10 ^ Z.of_nat f) (Zpos (Qden a)) in
        let m := digits_of (Z.to_N n) in
        match f with
        | 0 => sign ++ m
        | S _ =>
            let m := repeat 48%N (f + 1 - length m) ++ m in
            let k := length m in
            sign ++ firstn (k - f) m ++ lit "." ++ skipn (k - f) m
        end
  | _ => Number_toString x
  end.

(** The name of a place as a value: the label of bare coordinates is the
    string [`(${lat.toFixed(3)}, ${lon.toFixed(3)})`]. *)
Definition label_value (l : label) : value :=
  match l with
  | Name v => v
  | CoordLabel lat lon =>
      VStr (lit "(" ++ toFixed 3 lat ++ lit ", " ++ toFixed 3 lon ++ lit ")")
  end.

(** [formatPlace] *)
Definition formatPlace (g : GeoResult) : result str :=
  let parts := filter truthy [label_value (name g); admin1 g; country g] in
  join (lit ", ") parts.

(** An [async] function called and not awaited: it runs up to its first
    [await], the caller goes on from there with [rest], and what is left
    of the call goes on when its reply arrives. *)
Definition unawaited (r : Run unit) (rest : State -> State) : Run unit :=
  match r with
  | Ret _ s | Throw _ s => Ret tt (rest s)
  | AwaitFetch u s k => AwaitFetch u (rest s) k
  | AwaitJson x s k => AwaitJson x (rest s) k
  end.

(** The click on the suggestion [p]. *)
Definition pickSuggestion (p : GeoResult) : Prog unit :=
  fun s =>
    match formatPlace p with
    | inl e => Throw e s
    | inr text =>
        unawaited
          (resolveAndFetch (latitude p) (longitude p) (Some p)
                           (with_query text s))
          (with_suggestions [])
    end.

(** The click on the suggestion [p] at time [now], on a page with its
    autosuggest timer: the render after it runs the effect when the query
    has changed. *)
Definition pick (now : N) (p : GeoResult) (t : Typing) : Typing :=
  let s := store (pickSuggestion p (page t)) in
  {| page := s;
     timer := if Str.eqb (query s) (query (page t)) then timer t
              else effect now s |}.

End Numbers.

(** The parts that are there, with [", "] between them. *)
Fixpoint commas (parts : list str) : str :=
  match parts with
  | [] => []
  | [a] => a
  | a :: parts' => a ++ lit ", " ++ commas parts'
  end.

(** A property typed [string] and left out or filled in: what it adds to
    a label. *)
Definition text_of (v : value) : option str :=
  match v with
  | VUndefined => Some []
  | VStr s => Some s
  | _ => None
  end.

Definition nonempty (w : str) : bool :=
  match w with
  | [] => false
  | _ :: _ => true
  end.


End Text.

Import Text.

(* ------------------------------------------------------------------ *)
(** ** Unit conversion *)

Module Convert.

(** The double nearest to the rational [q]. *)
Definition nearest (q : Q) : num :=
  if (Qnum q =? 0)%Z then Finite 0%Q
  else if (Qnum q <? 0)%Z
       then negate (binary64 (- Qnum q) (Zpos (Qden q)))
       else binary64 (Qnum q) (Zpos (Qden q)).

(** [x * k], [x / k] and [x + k] for a constant [k] that is finite and
    not zero: the exact result, rounded. *)
Definition mul_by (k : Q) (x : num) : num :=
  match x with
  | Finite p => nearest (p * k)
  | Infinite b => Infinite (xorb b (Qnum k <? 0)%Z)
  | NaN => NaN
  end.

Definition div_by (k : Q) (x : num) : num :=
  match x with
  | Finite p => nearest (p / k)
  | Infinite b => Infinite (xorb b (Qnum k <? 0)%Z)
  | NaN => NaN
  end.

Definition add_to (k : Q) (x : num) : num :=
  match x with
  | Finite p => nearest (p + k)
  | Infinite b => Infinite b
  | NaN => NaN
  end.

(** The value of a decimal literal of the source. *)
Definition literal (digits : Z) (decimals : Z) : Q :=
  match binary64 digits (10 ^ decimals) with
  | Finite q => q
  | _ => 0%Q
  end.

(** [convertTemp]: [c * 9/5 + 32] under imperial units. *)
Definition convertTemp (units : Units) (c : num) : num :=
  match units with
  | imperial => add_to 32 (div_by 5 (mul_by 9 c))
  | metric => c
  end.

(** [convertSpeed]: [ms * 2.236936] under imperial units. *)
Definition convertSpeed (units : Units) (ms : num) : num :=
  match units with
  | imperial => mul_by (literal 2236936 6) ms
  | metric => ms
  end.

End Convert.

Import Convert.

(* ------------------------------------------------------------------ *)
(** ** Weather codes *)

Module Wmo.





Section Numbers.

Variable finite_to_string : Q -> str.



End Numbers.



End Wmo.

Import Wmo.

(* ------------------------------------------------------------------ *)
(** ** What the handlers leave behind *)

Module Outcome.

(** The place both geocoding paths build from a result that is not [null]
    or [undefined]. *)
Definition place_of (r : value) : GeoResult :=
  {| id := get_opt r "id";
     name := Name (get_opt r "name");
     latitude := get_opt r "latitude";
     longitude := get_opt r "longitude";
     country := get_opt r "country";
     admin1 := get_opt r "admin1";
     admin2 := get_opt r "admin2";
     admin3 := get_opt r "admin3";
     admin4 := get_opt r "admin4" |}.

(** A handler is at rest when it has ended with loading off, and in flight
    when it waits for the network with loading on; an exception that
    leaves the handler is neither. *)
Definition settled (A : Type) (t : Run A) : Prop :=
  match t with
  | Ret _ s => loading s = false
  | Throw _ _ => False
  | AwaitFetch _ s _ | AwaitJson _ s _ => loading s = true
  end.

(** The engine raised [e]. *)
Definition is_TypeError (e : exn) : Prop := exn_name e = lit "TypeError".

(** The state at the start of a forecast step: loading on, error and
    weather view cleared. *)
Definition cleared (s : State) : State :=
  with_weather None (with_error None (with_loading true s)).

(** The state at the end of a failed step: the message shown, loading
    off. *)
Definition failed (message : str) (s : State) : State :=
  with_loading false (with_error (Some message) s).

(** The state at the end of a forecast step that stored the payload [raw]
    and showed the place [p]. *)
Definition committed (raw : value) (p : GeoResult) (s : State) : State :=
  with_loading false (with_place (Some p) (with_weather (Some (view raw)) s)).

(** The place [resolveAndFetch] shows: the chosen one, or the one made
    from the coordinates. *)
Definition place_to_show (lat lon : value) (chosen : option GeoResult)
  : result GeoResult :=
  match chosen with
  | Some p => inr p
  | None => coordinate_place lat lon
  end.

(** The state in which a free-text submission waits for the geocoder. *)
Definition searching (s : State) : State :=
  with_loading true (with_error None s).

(** [data?.results?.[0]] *)
Definition first_result (data : value) : value :=
  index_opt (get_opt data "results") 0.

(** The place made from the first result of a geocoding payload. *)
Definition first_place (data : value) : GeoResult :=
  place_of (first_result data).

(** The state [resolveAndFetch] ends in once the body [b] of an ok
    response is there, [s] being the state of that moment. *)
Definition forecast_end (lat lon : value) (chosen : option GeoResult)
  (b : result value) (s : State) : State :=
  match b with
  | inl e => failed (message_or e "Something went wrong") s
  | inr raw =>
      match get raw "current" with
      | inl e => failed (message_or e "Something went wrong") s
      | inr _ =>
          match place_to_show lat lon chosen with
          | inr p => committed raw p s
          | inl e =>
              failed (message_or e "Something went wrong")
                     (with_weather (Some (view raw)) s)
          end
      end
  end.

End Outcome.

Import Outcome.

(* ------------------------------------------------------------------ *)
(** * Properties *)

(** ** Strings *)

Module StrFacts.

Lemma take_drop p s : takeWhile p s ++ dropWhile p s = s.
Proof.
  induction s as [|x s IH]; simpl; [reflexivity|].
  destruct (p x); simpl; [now rewrite IH | reflexivity].
Qed.

Lemma dropWhile_stops p s : stops p (dropWhile p s).
Proof.
  induction s as [|x s IH]; simpl; [exact I|].
  destruct (p x) eqn:E; [exact IH | exact E].
Qed.

Lemma takeWhile_all p s : forallb p (takeWhile p s) = true.
Proof.
  induction s as [|x s IH]; simpl; [reflexivity|].
  destruct (p x) eqn:E; simpl; [now rewrite E | reflexivity].
Qed.

(** A maximal run of [p] at the head of a string is determined by the
    string. *)
Lemma prefix_unique p l1 r1 l2 r2 :
  forallb p l1 = true -> forallb p l2 = true ->
  stops p r1 -> stops p r2 ->
  l1 ++ r1 = l2 ++ r2 -> l1 = l2 /\ r1 = r2.
Proof.
  revert l2; induction l1 as [|x l1 IH]; intros [|y l2] H1 H2 S1 S2 E;
    simpl in *.
  - now split.
  - subst r1. apply andb_prop in H2 as [Hy _]. simpl in S1. congruence.
  - subst r2. apply andb_prop in H1 as [Hx _]. simpl in S2. congruence.
  - injection E as -> E. apply andb_prop in H1 as [_ H1].
    apply andb_prop in H2 as [_ H2].
    destruct (IH l2 H1 H2 S1 S2 E) as [-> ->]. now split.
Qed.

Lemma takeWhile_prefix p l r :
  forallb p l = true -> stops p r -> takeWhile p (l ++ r) = l.
Proof.
  intros Hl Hr.
  apply (prefix_unique p (takeWhile p (l ++ r)) (dropWhile p (l ++ r)) l r);
    auto using takeWhile_all, dropWhile_stops, take_drop.
Qed.

Lemma dropWhile_prefix p l r :
  forallb p l = true -> stops p r -> dropWhile p (l ++ r) = r.
Proof.
  intros Hl Hr.
  apply (prefix_unique p (takeWhile p (l ++ r)) (dropWhile p (l ++ r)) l r);
    auto using takeWhile_all, dropWhile_stops, take_drop.
Qed.

(** A non-empty word of [q]-characters stops every class disjoint from
    [q]. *)
Lemma stops_app (p q : char -> bool) w r :
  (forall x, q x = true -> p x = false) ->
  w <> [] -> forallb q w = true -> stops p (w ++ r).
Proof.
  intros D N A. destruct w as [|x w]; [congruence|].
  simpl in *. apply andb_prop in A as [A _]. auto.
Qed.

Lemma trim_stops_left q : stops is_space (trim q).
Proof.
  unfold trim, trimEnd, trimStart.
  pose proof (dropWhile_stops is_space q) as H.
  set (u := dropWhile is_space q) in *.
  pose proof (take_drop is_space (rev u)) as E.
  apply (f_equal (@rev char)) in E. rewrite rev_app_distr, rev_involutive in E.
  destruct (rev (dropWhile is_space (rev u))) as [|x t] eqn:Et; [exact I|].
  rewrite <- E in H. simpl in H. exact H.
Qed.

Lemma trim_stops_right q : stops is_space (rev (trim q)).
Proof.
  unfold trim, trimEnd. rewrite rev_involutive. apply dropWhile_stops.
Qed.

(** A trimmed string has no white space at either end. *)
Lemma trim_no_margin q ws1 m ws2 :
  trim q = ws1 ++ m ++ ws2 ->
  forallb is_space ws1 = true -> forallb is_space ws2 = true ->
  ws1 = [] /\ ws2 = [].
Proof.
  intros E H1 H2. split.
  - destruct ws1 as [|x ws1]; [reflexivity|].
    pose proof (trim_stops_left q) as S. rewrite E in S. simpl in *.
    apply andb_prop in H1 as [H1 _]. congruence.
  - destruct (rev ws2) as [|x t] eqn:Er.
    + apply (f_equal (@rev char)) in Er. now rewrite rev_involutive in Er.
    + pose proof (trim_stops_right q) as S. rewrite E in S.
      rewrite !rev_app_distr, Er in S. simpl in S.
      assert (In x ws2) as Hx by (apply in_rev; rewrite Er; now left).
      rewrite forallb_forall in H2. rewrite (H2 x Hx) in S. discriminate.
Qed.

End StrFacts.

(** ** The matcher *)

Module RegExpFacts.

Import StrFacts.

Lemma mstate_eq st n s c :
  pos st = n -> rest st = s -> caps st = c -> st = MState n s c.
Proof. destruct st; simpl; intros; subst; reflexivity. Qed.

Lemma lang_ext r (L L' : str -> Prop) :
  has_lang r L -> (forall w, L w <-> L' w) -> has_lang r L'.
Proof.
  intros H E st st'. rewrite (H st st').
  split; intros (w & Hw & C); exists w; split; auto; now apply E.
Qed.

Lemma lang_Empty : has_lang Empty (fun w => w = []).
Proof.
  intros st st'; simpl. split.
  - intros [<- | []]. exists []. repeat split; simpl; auto.
  - intros (w & -> & E & P & C). left. simpl in *.
    destruct st, st'; simpl in *; subst. f_equal; lia.
Qed.

Lemma lang_Class p :
  has_lang (Class p) (fun w => exists x, w = [x] /\ p x = true).
Proof.
  intros st st'; simpl. split.
  - destruct (rest st) as [|x s] eqn:E; [intros []|].
    destruct (p x) eqn:Px; [|intros []].
    intros [<- | []]. exists [x]. split; [eauto|].
    repeat split; simpl; auto. lia.
  - intros (w & (x & -> & Px) & E & P & C). simpl in E.
    rewrite E, Px. left. symmetry. apply mstate_eq; auto. simpl in P; lia.
Qed.

Lemma star_in p s : forall n c st',
  In st' (star p n s c) <->
  exists w, forallb p w = true /\ s = w ++ rest st' /\
            pos st' = n + length w /\ caps st' = c.
Proof.
  induction s as [|x s IH]; intros n c st'; simpl.
  - split.
    + intros [<- | []]. exists []. simpl. repeat split; auto.
    + intros (w & _ & E & P & C). left. symmetry in E.
      apply app_eq_nil in E as [-> E]. simpl in P.
      symmetry; apply mstate_eq; auto; lia.
  - assert (In st' [MState n (x :: s) c] <->
            x :: s = [] ++ rest st' /\ pos st' = n + 0 /\ caps st' = c) as Here.
    { simpl. split.
      - intros [<- | []]. simpl. repeat split; auto.
      - intros (E & P & C). left. symmetry; apply mstate_eq; auto; lia. }
    destruct (p x) eqn:Px.
    + rewrite in_app_iff, IH, Here. split.
      * intros [(w & A & E & P & C) | (E & P & C)].
        -- exists (x :: w). simpl. rewrite Px, A, E.
           repeat split; auto; lia.
        -- exists []. simpl. repeat split; auto.
      * intros ([|y w] & A & E & P & C); simpl in *.
        -- right. repeat split; auto.
        -- left. injection E as <- E. apply andb_prop in A as [_ A].
           exists w. repeat split; auto; lia.
    + rewrite Here. split.
      * intros (E & P & C). exists []. simpl. repeat split; auto.
      * intros ([|y w] & A & E & P & C); simpl in *.
        -- repeat split; auto.
        -- injection E as <- E. apply andb_prop in A as [A _]. congruence.
Qed.

Lemma lang_Star p : has_lang (Star p) (fun w => forallb p w = true).
Proof.
  intros st st'. simpl. rewrite star_in. unfold consumes.
  split; intros (w & A & E & P & C); exists w; repeat split; auto.
Qed.

Lemma lang_Seq r1 r2 (L1 L2 : str -> Prop) :
  has_lang r1 L1 -> has_lang r2 L2 ->
  has_lang (Seq r1 r2) (fun w => exists w1 w2, w = w1 ++ w2 /\ L1 w1 /\ L2 w2).
Proof.
  intros H1 H2 st st'. simpl. rewrite in_flat_map. split.
  - intros (st1 & I1 & I2).
    apply H1 in I1 as (w1 & M1 & E1 & P1 & C1).
    apply H2 in I2 as (w2 & M2 & E2 & P2 & C2).
    exists (w1 ++ w2). split; [eauto|].
    repeat split.
    + now rewrite E1, E2, app_assoc.
    + rewrite length_app; lia.
    + congruence.
  - intros (w & (w1 & w2 & -> & M1 & M2) & E & P & C).
    exists (MState (pos st + length w1) (w2 ++ rest st') (caps st)). split.
    + apply H1. exists w1. split; auto. repeat split; simpl; auto.
      now rewrite E, app_assoc.
    + apply H2. exists w2. split; auto. repeat split; simpl; auto.
      rewrite length_app in P; lia.
Qed.

Lemma lang_Alt r1 r2 (L1 L2 : str -> Prop) :
  has_lang r1 L1 -> has_lang r2 L2 ->
  has_lang (Alt r1 r2) (fun w => L1 w \/ L2 w).
Proof.
  intros H1 H2 st st'. simpl. rewrite in_app_iff, (H1 st st'), (H2 st st').
  split.
  - intros [(w & M & C) | (w & M & C)]; exists w; auto.
  - intros (w & [M | M] & C); [left | right]; exists w; auto.
Qed.

Lemma lang_Opt r (L : str -> Prop) :
  has_lang r L -> has_lang (Opt r) (fun w => L w \/ w = []).
Proof. intros H. apply lang_Alt; [exact H | exact lang_Empty]. Qed.

Lemma lang_Plus p :
  has_lang (Plus p) (fun w => w <> [] /\ forallb p w = true).
Proof.
  eapply lang_ext; [apply lang_Seq; [apply lang_Class | apply lang_Star]|].
  intros w; simpl. split.
  - intros (w1 & w2 & -> & (x & -> & Px) & A). simpl. rewrite Px, A.
    split; [discriminate | reflexivity].
  - intros (N & A). destruct w as [|x w]; [congruence|]. simpl in A.
    apply andb_prop in A as [Px A]. exists [x], w. eauto.
Qed.

Lemma lang_UpTo p n :
  has_lang (UpTo n p) (fun w => length w <= n /\ forallb p w = true).
Proof.
  induction n as [|n IH]; simpl.
  - eapply lang_ext; [apply lang_Empty|]. intros w. split.
    + intros ->. simpl. auto.
    + intros [H _]. destruct w; simpl in *; [reflexivity | lia].
  - eapply lang_ext;
      [apply lang_Opt, lang_Seq; [apply lang_Class | exact IH]|].
    intros w; simpl. split.
    + intros [(w1 & w2 & -> & (x & -> & Px) & Hl & A) | ->]; simpl.
      * rewrite Px, A. split; [lia | reflexivity].
      * split; [lia | reflexivity].
    + intros [Hl A]. destruct w as [|x w]; [now right | left].
      simpl in *. apply andb_prop in A as [Px A].
      exists [x], w. repeat split; eauto. lia.
Qed.

Lemma lang_Repeat p lo more :
  has_lang (Repeat lo more p)
           (fun w => lo <= length w <= lo + more /\ forallb p w = true).
Proof.
  induction lo as [|lo IH]; simpl.
  - eapply lang_ext; [apply lang_UpTo|]. intros w; simpl.
    split; intros [H A]; split; auto; lia.
  - eapply lang_ext; [apply lang_Seq; [apply lang_Class | exact IH]|].
    intros w; simpl. split.
    + intros (w1 & w2 & -> & (x & -> & Px) & Hl & A). simpl.
      rewrite Px, A. split; [lia | reflexivity].
    + intros [Hl A]. destruct w as [|x w]; simpl in *; [lia|].
      apply andb_prop in A as [Px A].
      exists [x], w. repeat split; eauto; lia.
Qed.

Lemma is_char_eq a x : is_char a x = true <-> x = N_of_ascii a.
Proof. unfold is_char. apply N.eqb_eq. Qed.

(** The regular expression of a number matches the numbers of the
    specification. *)
Lemma lang_numberRe n : 1 <= n -> has_lang (numberRe n) (is_number n).
Proof.
  intros Hn. unfold numberRe.
  eapply lang_ext.
  { apply lang_Seq; [apply lang_Opt, lang_Class|].
    apply lang_Seq; [apply lang_Repeat|].
    apply lang_Opt, lang_Seq; [apply lang_Class | apply lang_Plus]. }
  intros w; unfold is_number; simpl. split.
  - intros (sg & w' & -> & Hs & ip & fp & -> & (Hl & Hd) & Hf).
    exists sg, ip, fp. repeat split; auto; try lia.
    + destruct Hs as [(x & -> & Hx) | ->]; [right | now left].
      apply is_char_eq in Hx. now subst x.
    + destruct Hf as [(d & ds & -> & (x & -> & Hx) & N & A) | ->];
        [right | now left].
      apply is_char_eq in Hx. subst x. exists ds. auto.
  - intros (sg & ip & fp & -> & Hs & Hl & Hd & Hf).
    exists sg, (ip ++ fp). split; [reflexivity|]. split.
    + destruct Hs as [-> | ->]; [now right | left].
      eexists. split; [reflexivity|]. reflexivity.
    + exists ip, fp. split; [reflexivity|]. split; [split; [lia | exact Hd]|].
      destruct Hf as [-> | (ds & -> & N & A)]; [now right | left].
      exists (lit "."), ds. split; [reflexivity|]. split; [|auto].
      eexists. split; reflexivity.
Qed.

Lemma in_Seq r1 r2 st st' :
  In st' (run (Seq r1 r2) st) <->
  exists st1, In st1 (run r1 st) /\ In st' (run r2 st1).
Proof. simpl. apply in_flat_map. Qed.

Lemma in_Bol st st' : In st' (run Bol st) <-> pos st = 0 /\ st' = st.
Proof.
  simpl. destruct (pos st); simpl; split.
  - intros [<- | []]. auto.
  - intros [_ ->]. now left.
  - intros [].
  - intros [H _]. discriminate.
Qed.

Lemma in_Eol st st' : In st' (run Eol st) <-> rest st = [] /\ st' = st.
Proof.
  simpl. destruct (rest st); simpl; split.
  - intros [<- | []]. auto.
  - intros [_ ->]. now left.
  - intros [].
  - intros [H _]. discriminate.
Qed.

Lemma firstn_consumed (w r : str) n : firstn (n + length w - n) (w ++ r) = w.
Proof.
  replace (n + length w - n) with (length w + 0) by lia.
  rewrite firstn_app_2. simpl. apply app_nil_r.
Qed.

(** A group around a capture-free expression records the word it matched. *)
Lemma in_Group i r (L : str -> Prop) st st' :
  has_lang r L ->
  In st' (run (Group i r) st) <->
  exists w, L w /\ rest st = w ++ rest st' /\
            pos st' = pos st + length w /\ caps st' = (i, w) :: caps st.
Proof.
  intros H. simpl. rewrite in_map_iff. split.
  - intros (st1 & <- & I). apply H in I as (w & M & E & P & C).
    exists w. simpl. repeat split; auto.
    rewrite P, E, C. now rewrite firstn_consumed.
  - intros (w & M & E & P & C).
    exists (MState (pos st') (rest st') (caps st)). split.
    + symmetry. apply mstate_eq; simpl; auto.
      rewrite C, P, E. now rewrite firstn_consumed.
    + apply H. exists w. split; auto. repeat split; auto.
Qed.

(** The complete matches of the coordinate expression: white space, a
    latitude, a separator, a longitude, white space; the two numbers are
    the groups 1 and 2. *)
Lemma in_latLonRe s st' :
  In st' (run latLonRe (MState 0 s [])) <->
  exists ws1 a sep b ws2,
    s = ws1 ++ a ++ sep ++ b ++ ws2 /\
    forallb is_space ws1 = true /\
    is_number 2 a /\
    (sep <> [] /\ forallb is_sep sep = true) /\
    is_number 3 b /\
    forallb is_space ws2 = true /\
    st' = MState (length s) [] [(2, b); (1, a)].
Proof.
  unfold latLonRe. split.
  - intros I.
    apply in_Seq in I as (st1 & I1 & I). apply in_Bol in I1 as [_ ->].
    apply in_Seq in I as (st2 & I2 & I).
    apply lang_Star in I2 as (ws1 & A1 & E1 & P1 & C1).
    apply in_Seq in I as (st3 & I3 & I).
    apply (in_Group 1 st2 st3 (lang_numberRe (n:=2) ltac:(lia))) in I3
      as (a & Na & E2 & P2 & C2).
    apply in_Seq in I as (st4 & I4 & I).
    apply lang_Plus in I4 as (sep & Hsep & E3 & P3 & C3).
    apply in_Seq in I as (st5 & I5 & I).
    apply (in_Group 2 st4 st5 (lang_numberRe (n:=3) ltac:(lia))) in I5
      as (b & Nb & E4 & P4 & C4).
    apply in_Seq in I as (st6 & I6 & I).
    apply lang_Star in I6 as (ws2 & A2 & E5 & P5 & C5).
    apply in_Eol in I as [E6 ->].
    simpl in *.
    assert (s = ws1 ++ a ++ sep ++ b ++ ws2) as Es.
    { rewrite E1, E2, E3, E4, E5, E6, app_nil_r. reflexivity. }
    exists ws1, a, sep, b, ws2. repeat split; auto; try tauto.
    apply mstate_eq; auto.
    + rewrite Es, !length_app. lia.
    + now rewrite C5, C4, C3, C2, C1.
  - intros (ws1 & a & sep & b & ws2 & Es & A1 & Na & Hsep & Nb & A2 & ->).
    apply in_Seq. exists (MState 0 s []). split; [now apply in_Bol|].
    apply in_Seq.
    exists (MState (length ws1) (a ++ sep ++ b ++ ws2) []). split.
    { apply lang_Star. exists ws1. repeat split; auto. }
    apply in_Seq.
    exists (MState (length ws1 + length a) (sep ++ b ++ ws2) [(1, a)]). split.
    { apply (in_Group 1 _ _ (lang_numberRe (n:=2) ltac:(lia))).
      exists a. repeat split; auto. }
    apply in_Seq.
    exists (MState (length ws1 + length a + length sep) (b ++ ws2) [(1, a)]).
    split.
    { apply lang_Plus. exists sep. repeat split; auto; tauto. }
    apply in_Seq.
    exists (MState (length ws1 + length a + length sep + length b) ws2
                   [(2, b); (1, a)]).
    split.
    { apply (in_Group 2 _ _ (lang_numberRe (n:=3) ltac:(lia))).
      exists b. repeat split; auto. }
    apply in_Seq. exists (MState (length s) [] [(2, b); (1, a)]). split.
    { apply lang_Star. exists ws2. repeat split; simpl; auto.
      - now rewrite app_nil_r.
      - rewrite Es, !length_app. lia. }
    now apply in_Eol.
Qed.

(** An expression anchored with [^] can only match from index 0. *)
Lemma search_Bol r s : forall n, search (Seq Bol r) (S n) s = None.
Proof.
  induction s as [|x s IH]; intros n; simpl; [reflexivity | apply IH].
Qed.

Lemma exec_latLonRe s :
  exec latLonRe s = hd_error (run latLonRe (MState 0 s [])).
Proof.
  unfold exec. destruct s as [|x s]; unfold search; fold search.
  - destruct (run latLonRe (MState 0 [] [])); reflexivity.
  - destruct (run latLonRe (MState 0 (x :: s) [])); [|reflexivity].
    apply search_Bol.
Qed.

End RegExpFacts.

(** ** Character classes *)

Module ClassFacts.

Ltac char_cases :=
  unfold is_numchar, is_sep, is_space, is_digit, is_char in *;
  change (N_of_ascii "-") with 45%N in *;
  change (N_of_ascii "+") with 43%N in *;
  change (N_of_ascii ".") with 46%N in *;
  change (N_of_ascii ",") with 44%N in *;
  repeat match goal with
         | |- _ = false => apply not_true_is_false; intro
         | H : _ = true |- _ =>
             progress rewrite ?orb_true_iff, ?andb_true_iff, ?N.leb_le,
               ?N.eqb_eq in H
         end.

Lemma space_is_sep x : is_space x = true -> is_sep x = true.
Proof. intros H. unfold is_sep. rewrite H. apply orb_true_r. Qed.

Lemma numchar_not_sep x : is_numchar x = true -> is_sep x = false.
Proof. intros H. char_cases. lia. Qed.

Lemma sep_not_numchar x : is_sep x = true -> is_numchar x = false.
Proof. intros H. char_cases. lia. Qed.

Lemma numchar_not_space x : is_numchar x = true -> is_space x = false.
Proof. intros H. char_cases. lia. Qed.

Lemma space_not_numchar x : is_space x = true -> is_numchar x = false.
Proof. intros H. apply sep_not_numchar, space_is_sep, H. Qed.

Lemma digit_is_numchar x : is_digit x = true -> is_numchar x = true.
Proof. intros H. unfold is_numchar. now rewrite H. Qed.

Lemma digit_not_space x : is_digit x = true -> is_space x = false.
Proof. intros H. char_cases. lia. Qed.

Lemma digit_not_sign x :
  is_digit x = true -> is_char "-" x = false /\ is_char "+" x = false.
Proof. intros H. split; char_cases; lia. Qed.

Lemma digits_are_numchars w :
  forallb is_digit w = true -> forallb is_numchar w = true.
Proof.
  rewrite !forallb_forall. intros H x Hx. apply digit_is_numchar; auto.
Qed.

(** A number is a non-empty word of number characters. *)
Lemma number_chars n w :
  is_number n w -> w <> [] /\ forallb is_numchar w = true.
Proof.
  intros (sg & ip & fp & -> & Hs & Hl & Hd & Hf). split.
  - destruct ip as [|d ip]; [simpl in Hl; lia|].
    destruct sg; discriminate.
  - rewrite !forallb_app. apply andb_true_intro; split;
      [|apply andb_true_intro; split].
    + destruct Hs as [-> | ->]; reflexivity.
    + now apply digits_are_numchars.
    + destruct Hf as [-> | (ds & -> & _ & A)]; [reflexivity|].
      simpl. now apply digits_are_numchars.
Qed.

End ClassFacts.

(** ** The classifier *)

Module ClassifierFacts.

Import StrFacts RegExpFacts ClassFacts.

(** A string splits in one way only into white space, a number, a
    separator, a number and white space. *)
Lemma split_unique ws1 a sep b ws2 ws1' a' sep' b' ws2' :
  ws1 ++ a ++ sep ++ b ++ ws2 = ws1' ++ a' ++ sep' ++ b' ++ ws2' ->
  forallb is_space ws1 = true -> forallb is_space ws1' = true ->
  is_number 2 a -> is_number 2 a' ->
  sep <> [] /\ forallb is_sep sep = true ->
  sep' <> [] /\ forallb is_sep sep' = true ->
  is_number 3 b -> is_number 3 b' ->
  forallb is_space ws2 = true -> forallb is_space ws2' = true ->
  a = a' /\ b = b'.
Proof.
  intros E W1 W1' Na Na' [Ns As] [Ns' As'] Nb Nb' W2 W2'.
  apply number_chars in Na as [Nea Aa], Na' as [Nea' Aa'].
  apply number_chars in Nb as [Neb Ab], Nb' as [Neb' Ab'].
  assert (forall w, forallb is_space w = true -> stops is_numchar w) as Sp.
  { intros [|x w] H; simpl in *; [exact I|].
    apply andb_prop in H as [H _]. now apply space_not_numchar. }
  apply (prefix_unique is_space) in E as [_ E]; auto;
    try (apply (stops_app _ is_numchar); auto using numchar_not_space).
  apply (prefix_unique is_numchar) in E as [Ea E]; auto;
    try (apply (stops_app _ is_sep); auto using sep_not_numchar).
  apply (prefix_unique is_sep) in E as [_ E]; auto;
    try (apply (stops_app _ is_numchar); auto using numchar_not_sep).
  apply (prefix_unique is_numchar) in E as [Eb _]; auto.
Qed.

(** On a trimmed string the expression matches exactly the coordinate
    pattern, and the match holds the two numbers. *)
Lemma exec_trim q m :
  exec latLonRe (trim q) = Some m <->
  exists a b,
    coord_pattern (trim q) a b /\
    m = MState (length (trim q)) [] [(2, b); (1, a)].
Proof.
  rewrite exec_latLonRe. split.
  - intros H.
    assert (In m (run latLonRe (MState 0 (trim q) []))) as I.
    { destruct (run latLonRe (MState 0 (trim q) [])); simpl in H;
        [discriminate | injection H as ->; now left]. }
    apply in_latLonRe in I
      as (ws1 & a & sep & b & ws2 & E & W1 & Na & Hs & Nb & W2 & ->).
    assert (ws1 = [] /\ ws2 = []) as [-> ->].
    { apply (trim_no_margin q ws1 (a ++ sep ++ b) ws2); auto.
      now rewrite E, <- !app_assoc. }
    exists a, b. split; [|reflexivity].
    exists sep. simpl in E. rewrite app_nil_r in E. tauto.
  - intros (a & b & (sep & E & Na & Ns & As & Nb) & ->).
    assert (In (MState (length (trim q)) [] [(2, b); (1, a)])
               (run latLonRe (MState 0 (trim q) []))) as I.
    { apply in_latLonRe. exists [], a, sep, b, [].
      simpl. rewrite app_nil_r. repeat split; auto. }
    destruct (run latLonRe (MState 0 (trim q) [])) as [|m' l] eqn:R;
      [destruct I|].
    simpl. f_equal.
    assert (In m' (run latLonRe (MState 0 (trim q) []))) as I'
      by (rewrite R; now left).
    apply in_latLonRe in I'
      as (ws1 & a' & sep' & b' & ws2 & E' & W1 & Na' & Hs' & Nb' & W2 & ->).
    assert (a' = a /\ b' = b) as [-> ->]; [|reflexivity].
    apply (@split_unique ws1 a' sep' b' ws2 [] a sep b []); auto.
    simpl. now rewrite app_nil_r, <- E', <- E.
Qed.

(** The autosuggest-path test looks at the pattern only. *)
Lemma isLatLonInput_pattern q :
  isLatLonInput q = true <-> exists a b, coord_pattern (trim q) a b.
Proof.
  unfold isLatLonInput. split.
  - destruct (exec latLonRe (trim q)) as [m|] eqn:E; [|discriminate].
    intros _. apply exec_trim in E as (a & b & H & _). eauto.
  - intros (a & b & H).
    assert (exec latLonRe (trim q)
            = Some (MState (length (trim q)) [] [(2, b); (1, a)])) as ->
      by (apply exec_trim; eauto).
    reflexivity.
Qed.

End ClassifierFacts.

(** ** Numbers *)

Module NumFacts.

Import StrFacts ClassFacts.

Lemma binary64_not_NaN n d : binary64 n d <> NaN.
Proof.
  unfold binary64.
  repeat match goal with
         | |- context [if ?c then _ else _] => destruct c
         end; discriminate.
Qed.

Lemma decimal_to_num_not_NaN n k : decimal_to_num n k <> NaN.
Proof.
  unfold decimal_to_num. destruct (0 <=? k)%Z; apply binary64_not_NaN.
Qed.

Lemma negate_not_NaN x : x <> NaN -> negate x <> NaN.
Proof. destruct x; simpl; congruence. Qed.

Lemma abs_not_NaN x : x <> NaN -> Math_abs x <> NaN.
Proof. destruct x; simpl; congruence. Qed.

(** Away from NaN, "not greater" is "at most". *)
Lemma not_gt_le x y :
  x <> NaN -> y <> NaN -> (gt x y = false <-> le x y = true).
Proof.
  destruct x as [p|nx|], y as [q|ny|]; simpl; try congruence; intros _ _.
  - destruct (Qle_bool p q); simpl; split; congruence.
  - destruct ny; simpl; split; congruence.
  - destruct nx; simpl; split; congruence.
  - destruct nx, ny; simpl; split; congruence.
Qed.

Lemma starts_with_head x p y s :
  (x =? y)%N = false -> starts_with (x :: p) (y :: s) = false.
Proof. intros H. simpl. now rewrite H. Qed.

(** What starts with a digit parses to a number, with or without a
    minus sign in front. *)
Lemma parseFloat_digit_not_NaN sg d w :
  sg = [] \/ sg = lit "-" ->
  is_digit d = true ->
  parseFloat (sg ++ d :: w) <> NaN.
Proof.
  intros Hs Hd.
  destruct (digit_not_sign d Hd) as [Hm Hp].
  pose proof (digit_not_space d Hd) as Hw.
  assert (starts_with (lit "Infinity") (d :: w) = false) as Hi.
  { change (lit "Infinity") with (73%N :: lit "nfinity").
    apply starts_with_head. apply N.eqb_neq. intros <-. discriminate. }
  assert (forall neg, read_literal neg (d :: w) <> NaN) as Body.
  { intros neg. unfold read_literal. rewrite Hi. simpl takeWhile. rewrite Hd.
    destruct (read_fraction (dropWhile is_digit (d :: w))) as [fp s'].
    cbv zeta. simpl app.
    destruct neg; [apply negate_not_NaN|]; apply decimal_to_num_not_NaN. }
  unfold parseFloat, trimStart.
  destruct Hs as [-> | ->].
  - simpl app. simpl dropWhile. rewrite Hw.
    unfold read_sign. rewrite Hm, Hp. apply Body.
  - change (lit "-" ++ d :: w) with (45%N :: d :: w).
    simpl dropWhile. change (is_space 45%N) with false. cbv iota.
    unfold read_sign. change (is_char "-" 45%N) with true. cbv iota.
    apply Body.
Qed.

(** Every number of the pattern parses. *)
Lemma parseFloat_number n w : is_number n w -> parseFloat w <> NaN.
Proof.
  intros (sg & ip & fp & -> & Hs & Hl & Hd & _).
  destruct ip as [|d ip]; [simpl in Hl; lia|].
  simpl in Hd. apply andb_prop in Hd as [Hd _].
  change (sg ++ (d :: ip) ++ fp) with (sg ++ d :: (ip ++ fp)).
  now apply parseFloat_digit_not_NaN.
Qed.

End NumFacts.

(** ** Classification and submission *)

Import StrFacts RegExpFacts ClassFacts ClassifierFacts NumFacts.

(** The bounds check of [parseLatLon], on two numbers of the pattern. *)
Lemma bounds_check a b :
  is_number 2 a -> is_number 3 b ->
  (gt (Math_abs (parseFloat a)) (of_Z 90)
   || gt (Math_abs (parseFloat b)) (of_Z 180))%bool = false <->
  in_bounds (parseFloat a) (parseFloat b).
Proof.
  intros Na Nb. unfold in_bounds.
  rewrite orb_false_iff.
  rewrite !not_gt_le;
    try apply abs_not_NaN; try (eapply parseFloat_number; eassumption);
    try discriminate.
  reflexivity.
Qed.

Lemma parseLatLon_Some q lat lon :
  parseLatLon q = Some (lat, lon) <->
  exists a b,
    coord_pattern (trim q) a b /\
    parseFloat a = lat /\ parseFloat b = lon /\ in_bounds lat lon.
Proof.
  unfold parseLatLon. split.
  - destruct (exec latLonRe (trim q)) as [m|] eqn:E; [|discriminate].
    apply exec_trim in E as (a & b & P & ->).
    unfold parseFloat_group, group; simpl.
    destruct (gt _ _ || gt _ _)%bool eqn:B; [discriminate|].
    intros H; injection H as <- <-.
    exists a, b. split; [exact P|]. split; [reflexivity|].
    split; [reflexivity|].
    destruct P as (sep & _ & Na & _ & _ & Nb). now apply bounds_check.
  - intros (a & b & P & <- & <- & B).
    assert (exec latLonRe (trim q)
            = Some (MState (length (trim q)) [] [(2, b); (1, a)])) as ->
      by (apply exec_trim; eauto).
    unfold parseFloat_group, group; simpl.
    destruct P as (sep & _ & Na & _ & _ & Nb).
    apply bounds_check in B; auto. now rewrite B.
Qed.

Lemma handleSubmit_first_request q s :
  match parseLatLon q with
  | Some (lat, lon) =>
      exists s' k,
        handleSubmit (with_query q s)
        = AwaitFetch (forecast_url (VNum lat) (VNum lon)) s' k
  | None =>
      exists s' k,
        handleSubmit (with_query q s)
        = AwaitFetch (geocoding_url (trim q) "1") s' k
  end.
Proof.
  unfold handleSubmit. simpl query.
  destruct (parseLatLon q) as [[lat lon]|] eqn:E.
  - eexists. eexists. reflexivity.
  - eexists. eexists. reflexivity.
Qed.

(** C1.  The submit path classifies an input as a coordinate pair exactly
    when the trimmed input is a number of one or two integer digits, a
    separator of commas and white space, and a number of one to three
    integer digits (each with an optional minus sign and fraction) and the
    parsed numbers satisfy |lat| <= 90 and |lon| <= 180; it is then sent
    to the forecast service as it is.  Every other input is free text:
    [parseLatLon] is null and the trimmed input goes to the geocoder. *)
Theorem parseLatLon_classifies (q : str) :
  (forall lat lon,
     parseLatLon q = Some (lat, lon) <->
     exists a b,
       coord_pattern (trim q) a b /\
       parseFloat a = lat /\ parseFloat b = lon /\ in_bounds lat lon) /\
  (parseLatLon q = None <->
   ~ exists a b,
       coord_pattern (trim q) a b /\
       in_bounds (parseFloat a) (parseFloat b)) /\
  (forall s,
     match parseLatLon q with
     | Some (lat, lon) =>
         exists s' k,
           handleSubmit (with_query q s)
           = AwaitFetch (forecast_url (VNum lat) (VNum lon)) s' k
     | None =>
         exists s' k,
           handleSubmit (with_query q s)
           = AwaitFetch (geocoding_url (trim q) "1") s' k
     end).
Proof.
  split; [|split].
  - intros lat lon. apply parseLatLon_Some.
  - split.
    + intros N (a & b & P & B).
      assert (parseLatLon q = Some (parseFloat a, parseFloat b)) as H
        by (apply parseLatLon_Some; eauto 6).
      congruence.
    + intros N. destruct (parseLatLon q) as [[lat lon]|] eqn:E;
        [|reflexivity].
      exfalso. apply N. apply parseLatLon_Some in E as (a & b & P & <- & <- & B).
      eauto.
  - intros s. apply handleSubmit_first_request.
Qed.

(** The scenario of the specification: ["27.95, -82.46"] is a coordinate
    pair, and the two numbers are the doubles nearest to 27.95 and
    -82.46. *)
Example parseLatLon_tampa :
  parseLatLon (lit "27.95, -82.46")
  = Some (Finite (7867225599062835 # 281474976710656),
          Finite (-5802606644890173 # 70368744177664)).
Proof. vm_compute. reflexivity. Qed.

(** Any run of commas and white space separates, and the margins are
    trimmed. *)
Example parseLatLon_separators :
  parseLatLon (lit "  12,, ,5.5 ") = Some (Finite 12, Finite (11 # 2)).
Proof. vm_compute. reflexivity. Qed.

(** The bounds are on the parsed doubles: a latitude that rounds to 90 is
    in bounds. *)
Example parseLatLon_rounds_to_bound :
  parseLatLon (lit "90.000000000000000001 180") = Some (Finite 90, Finite 180).
Proof. vm_compute. reflexivity. Qed.

Example parseLatLon_out_of_bounds :
  parseLatLon (lit "90.5, 10") = None /\ parseLatLon (lit "45 180.1") = None.
Proof. split; vm_compute; reflexivity. Qed.

(** No plus sign, no bare fraction, no fourth digit. *)
Example parseLatLon_not_pattern :
  parseLatLon (lit "+12, 5") = None /\
  parseLatLon (lit ".5, 5") = None /\
  parseLatLon (lit "12, 1000") = None /\
  parseLatLon (lit "12.,5") = None.
Proof. repeat split; vm_compute; reflexivity. Qed.

(** Whatever the submit path takes for coordinates, the autosuggest path
    does too. *)
Lemma parseLatLon_isLatLonInput q :
  parseLatLon q <> None -> isLatLonInput q = true.
Proof.
  destruct (parseLatLon q) as [[lat lon]|] eqn:E; [intros _ | congruence].
  apply parseLatLon_Some in E as (a & b & P & _).
  apply isLatLonInput_pattern. eauto.
Qed.

(** C2.  The two classifications differ on ["99, 0"]: the autosuggest
    test [isLatLonInput] accepts it, because it checks the pattern and
    not the bounds, while [parseLatLon] rejects the latitude.  Autosuggest
    is switched off for a text that a submission sends to the geocoder. *)
Theorem isLatLonInput_skips_bounds (s : State) :
  isLatLonInput (lit "99, 0") = true /\
  parseLatLon (lit "99, 0") = None /\
  fetchSuggestions (lit "99, 0") s = Ret tt (with_suggestions [] s) /\
  exists s' k,
    handleSubmit (with_query (lit "99, 0") s)
    = AwaitFetch (geocoding_url (lit "99, 0") "1") s' k.
Proof.
  assert (isLatLonInput (lit "99, 0") = true) as H1 by (vm_compute; reflexivity).
  assert (parseLatLon (lit "99, 0") = None) as H2 by (vm_compute; reflexivity).
  split; [exact H1|]. split; [exact H2|]. split.
  - unfold fetchSuggestions. rewrite H1. reflexivity.
  - pose proof (handleSubmit_first_request (lit "99, 0") s) as H.
    rewrite H2 in H. exact H.
Qed.

(** C9.  A submission of an empty or white-space-only query is not cut
    short: the query counts as free text, and [handleSubmit] sends the
    geocoder a request for the empty name. *)
Theorem handleSubmit_blank_query (q : str) (s : State) :
  trim q = [] ->
  parseLatLon q = None /\
  exists s' k,
    handleSubmit (with_query q s) = AwaitFetch (geocoding_url [] "1") s' k.
Proof.
  intros T.
  assert (parseLatLon q = None) as N by (unfold parseLatLon; now rewrite T).
  split; [exact N|].
  pose proof (handleSubmit_first_request q s) as H.
  rewrite N, T in H. exact H.
Qed.

Lemma handleSubmit_blank_query_witness :
  trim (lit "   ") = [] /\
  parseLatLon (lit "   ") = None /\
  exists s' k,
    handleSubmit (with_query (lit "   ") initial)
    = AwaitFetch (geocoding_url [] "1") s' k.
Proof.
  split; [reflexivity|].
  apply (@handleSubmit_blank_query (lit "   ") initial). reflexivity.
Defined.

(** The free-text branch of [handleSubmit] when the payload of the
    geocoder holds no first result, whatever the status of the response. *)
Lemma handleSubmit_no_first_result q s g data :
  parseLatLon q = None ->
  truthy (index_opt (get_opt data "results") 0) = false ->
  alone (handleSubmit (with_query q s))
        [Fetched (inr g); Parsed (inr data)]
  = Some (Ret tt
            (with_loading false
               (with_error (Some not_found_message)
                  (with_loading true (with_error None (with_query q s)))))).
Proof.
  intros N F. unfold alone, handleSubmit. simpl query. rewrite N.
  simpl. rewrite F. reflexivity.
Qed.

Lemma no_results_no_first data :
  no_results data -> truthy (index_opt (get_opt data "results") 0) = false.
Proof. intros [-> | ->]; reflexivity. Qed.

(** C4.  A geocoding response with a failure status is not reported as a
    network error: [handleSubmit] never looks at the status, reads the
    body, finds no [results] in it and reports that no location
    matched.  Shown on a 500 response whose body is an error object. *)
Theorem geocoding_status_ignored (s : State) :
  let g := {| status := 500 |} in
  let body := VObj [(lit "error", VBool true);
                    (lit "reason", VStr (lit "Internal error"))] in
  ok g = false /\
  exists s',
    alone (handleSubmit (with_query (lit "Tampa") s))
          [Fetched (inr g); Parsed (inr body)]
    = Some (Ret tt s') /\
    error s' = Some not_found_message /\
    error s' <> Some forecast_failed_message.
Proof.
  intros g body. split; [reflexivity|].
  eexists. split.
  - apply handleSubmit_no_first_result; vm_compute; reflexivity.
  - split; [reflexivity | discriminate].
Qed.

(** C5.  When the geocoder answers a free-text submission with an empty
    result set, the attempt ends failed: loading is over, the error is
    the not-found message, and the weather view is the one held before
    the submission. *)
Theorem geocoding_not_found (q : str) (s : State) (g : Response)
  (data : value) :
  parseLatLon q = None ->
  no_results data ->
  exists s',
    alone (handleSubmit (with_query q s))
          [Fetched (inr g); Parsed (inr data)]
    = Some (Ret tt s') /\
    loading s' = false /\
    error s' = Some not_found_message /\
    weather s' = weather s.
Proof.
  intros N E. eexists. split.
  - apply handleSubmit_no_first_result; [exact N|].
    now apply no_results_no_first.
  - repeat split.
Qed.

Lemma geocoding_not_found_witness :
  parseLatLon (lit "Atlantis") = None /\
  no_results (VObj [(lit "generationtime_ms", VNum (of_Z 1))]) /\
  exists s',
    alone (handleSubmit (with_query (lit "Atlantis") initial))
          [Fetched (inr {| status := 200 |});
           Parsed (inr (VObj [(lit "generationtime_ms", VNum (of_Z 1))]))]
    = Some (Ret tt s') /\
    loading s' = false /\
    error s' = Some not_found_message /\
    weather s' = weather initial.
Proof.
  assert (parseLatLon (lit "Atlantis") = None) as N
    by (vm_compute; reflexivity).
  assert (no_results (VObj [(lit "generationtime_ms", VNum (of_Z 1))])) as E
    by (left; reflexivity).
  split; [exact N|]. split; [exact E|].
  exact (@geocoding_not_found (lit "Atlantis") initial {| status := 200 |}
           _ N E).
Defined.

(** [resolveAndFetch] up to its request: loading is on, the error and the
    weather view are cleared. *)
Lemma resolveAndFetch_start lat lon chosen s :
  exists k,
    resolveAndFetch lat lon chosen s
    = AwaitFetch (forecast_url lat lon)
                 (with_weather None (with_error None (with_loading true s))) k.
Proof. eexists. reflexivity. Qed.

(** C10.  [resolveAndFetch] clears the weather view before it sends the
    forecast request; when the request does not complete or the response
    is not ok, the invocation ends with the error set and the view still
    null, whatever view was held before. *)
Theorem forecast_failure_clears_view (lat lon : value)
  (chosen : option GeoResult) (s : State) (o : result Response) :
  forecast_failure o ->
  (exists s1 k,
     resolveAndFetch lat lon chosen s = AwaitFetch (forecast_url lat lon) s1 k /\
     weather s1 = None) /\
  exists s',
    alone (resolveAndFetch lat lon chosen s) [Fetched o] = Some (Ret tt s') /\
    weather s' = None /\
    error s' = Some (forecast_failure_message o) /\
    loading s' = false.
Proof.
  intros F. split.
  - eexists. eexists. split; reflexivity.
  - destruct o as [e | r]; simpl in F.
    + eexists. split; [reflexivity|]. repeat split.
    + eexists. split.
      * unfold alone. simpl. rewrite F. simpl. reflexivity.
      * repeat split.
Qed.

Lemma forecast_failure_clears_view_witness :
  let held := view (VObj [(lit "current", VObj []); (lit "daily", VObj [])]) in
  let s := with_weather (Some held) initial in
  let o : result Response := inr {| status := 503 |} in
  weather s = Some held /\
  forecast_failure o /\
  exists s',
    alone (resolveAndFetch (VNum (of_Z 10)) (VNum (of_Z 20)) None s)
          [Fetched o]
    = Some (Ret tt s') /\
    weather s' = None /\
    error s' = Some forecast_failed_message /\
    loading s' = false.
Proof.
  intros held s o.
  assert (forecast_failure o) as F by reflexivity.
  split; [reflexivity|]. split; [exact F|].
  exact (proj2 (@forecast_failure_clears_view
                  (VNum (of_Z 10)) (VNum (of_Z 20)) None s o F)).
Defined.

(** The autosuggest lookup up to its request. *)
Lemma fetchSuggestions_start text s :
  text <> [] -> isLatLonInput text = false ->
  exists k,
    fetchSuggestions text s = AwaitFetch (geocoding_url text "5") s k /\
    (forall e s1, k (inl e) s1 = Ret tt s1) /\
    (forall r s1, exists k2,
        k (inr r) s1 = AwaitJson r s1 k2 /\
        (forall e s2, k2 (inl e) s2 = Ret tt s2) /\
        (forall data s2,
            k2 (inr data) s2 =
            match array_map (or_else (get_opt data "results") (VArr []))
                            (fun r _ => geoResult r) with
            | inl _ => Ret tt s2
            | inr l => Ret tt (with_suggestions l s2)
            end)).
Proof.
  intros N L. unfold fetchSuggestions. rewrite L.
  destruct text as [|c text]; [congruence|]. simpl orb. cbv iota.
  eexists. split; [reflexivity|]. split; [reflexivity|].
  intros r s1. eexists. split; [reflexivity|]. split; [reflexivity|].
  intros data s2. simpl.
  destruct (array_map _ _); reflexivity.
Qed.

(** C6, as the specification states it, fails: after a lookup that does
    not complete, the suggestions of the lookup before are still there. *)
Lemma stale_suggestions_survive_failure :
  ~ (forall text s rs s',
       text <> [] -> isLatLonInput text = false -> suggest_failure rs ->
       alone (fetchSuggestions text s) rs = Some (Ret tt s') ->
       suggestions s' = [] /\ error s' = error s).
Proof.
  intros H.
  pose (p := {| id := VNum (of_Z 1); name := Name (VStr (lit "Tampa"));
                latitude := VNum (of_Z 28); longitude := VNum (of_Z (-82));
                country := VUndefined; admin1 := VUndefined;
                admin2 := VUndefined; admin3 := VUndefined;
                admin4 := VUndefined |}).
  destruct (H (lit "Tam") (with_suggestions [p] initial)
              [Fetched (inl (type_error "Failed to fetch"))]
              (with_suggestions [p] initial)) as [E _].
  - discriminate.
  - vm_compute; reflexivity.
  - constructor.
  - reflexivity.
  - discriminate E.
Qed.

(** C6, amended.  A failing autosuggest lookup never sets an error.  When
    the payload holds no result the suggestion list becomes empty; when
    the request does not complete or the body is not JSON the whole state,
    suggestion list included, is left as it was. *)
Theorem autosuggest_failure_silent (text : str) (s : State)
  (rs : list reply) :
  text <> [] -> isLatLonInput text = false -> suggest_failure rs ->
  exists s',
    alone (fetchSuggestions text s) rs = Some (Ret tt s') /\
    error s' = error s /\
    match rs with
    | [_; Parsed (inr _)] => s' = with_suggestions [] s
    | _ => s' = s
    end.
Proof.
  intros N L F.
  destruct (fetchSuggestions_start s N L) as (k & -> & Ke & Kr).
  unfold alone. destruct F as [e | r e | r data Z]; simpl.
  - rewrite Ke. eauto.
  - destruct (Kr r s) as (k2 & -> & K2e & _). simpl. rewrite K2e. eauto.
  - destruct (Kr r s) as (k2 & -> & _ & K2d). simpl. rewrite K2d.
    destruct Z as [-> | ->]; simpl; eauto.
Qed.

Lemma autosuggest_failure_silent_witness :
  let p := {| id := VNum (of_Z 1); name := Name (VStr (lit "Tampa"));
              latitude := VNum (of_Z 28); longitude := VNum (of_Z (-82));
              country := VUndefined; admin1 := VUndefined;
              admin2 := VUndefined; admin3 := VUndefined;
              admin4 := VUndefined |} in
  let s := with_suggestions [p] initial in
  let rs := [Fetched (inl (type_error "Failed to fetch"))] in
  lit "Tam" <> [] /\ isLatLonInput (lit "Tam") = false /\
  suggest_failure rs /\
  exists s',
    alone (fetchSuggestions (lit "Tam") s) rs = Some (Ret tt s') /\
    error s' = error s /\ s' = s.
Proof.
  intros p s rs.
  assert (lit "Tam" <> []) as N by discriminate.
  assert (isLatLonInput (lit "Tam") = false) as L by (vm_compute; reflexivity).
  assert (suggest_failure rs) as F by constructor.
  split; [exact N|]. split; [exact L|]. split; [exact F|].
  exact (@autosuggest_failure_silent (lit "Tam") s rs N L F).
Defined.

(** ** Forecast shaping *)

(** Mapping a callback that never throws gives one result per element, in
    the order of the elements. *)
Lemma traverse_from_total (B : Type) (g : value -> nat -> B) l : forall i,
  traverse_from i (fun x j => inr (g x j)) l
  = inr (List.map (fun j => g (nth (j - i) l VUndefined) j)
                  (seq i (length l))).
Proof.
  induction l as [|x l IH]; intros i; simpl; [reflexivity|].
  rewrite IH. rewrite Nat.sub_diag. do 2 f_equal.
  apply map_ext_in. intros j Hj. apply in_seq in Hj.
  replace (j - i) with (S (j - S i)) by lia. reflexivity.
Qed.

Lemma firstn_seq n : forall start len,
  firstn n (seq start len) = seq start (Nat.min n len).
Proof.
  induction n as [|n IH]; intros start [|len]; simpl; try reflexivity.
  now rewrite IH.
Qed.

Lemma nth_seq (l : list value) :
  List.map (fun i => nth i l VUndefined) (seq 0 (length l)) = l.
Proof.
  induction l as [|x l IH]; simpl; [reflexivity|].
  f_equal. rewrite <- seq_shift, map_map. exact IH.
Qed.

(** On a series, [v?.[i]] is the element at [i], if any. *)
Lemma index_opt_series v i : series v -> index_opt v i = element v i.
Proof. intros [-> | (items & ->)]; reflexivity. Qed.

(** The memo on a payload with a time array, before the series are looked
    at. *)
Lemma fiveDay_time w ts :
  (exists fields, daily w = VObj fields) ->
  get_opt (daily w) "time" = VArr ts ->
  fiveDay (Some w)
  = inr (List.map
           (fun i =>
              {| date := nth i ts VUndefined;
                 code := index_opt (get_opt (daily w) "weather_code") i;
                 tmax := index_opt (get_opt (daily w) "temperature_2m_max") i;
                 tmin := index_opt (get_opt (daily w) "temperature_2m_min") i;
                 ppop :=
                   index_opt
                     (get_opt (daily w) "precipitation_probability_max") i;
                 wmax := index_opt (get_opt (daily w) "wind_speed_10m_max") i |})
           (seq 0 (Nat.min 5 (length ts)))).
Proof.
  intros (fields & D) T. unfold fiveDay. rewrite T. rewrite D at 1.
  simpl truthy. cbv iota. simpl negb. cbv iota.
  unfold array_map.
  rewrite (traverse_from_total
             (fun t i =>
                {| date := t;
                   code := index_opt (get_opt (daily w) "weather_code") i;
                   tmax := index_opt (get_opt (daily w) "temperature_2m_max") i;
                   tmin := index_opt (get_opt (daily w) "temperature_2m_min") i;
                   ppop :=
                     index_opt
                       (get_opt (daily w) "precipitation_probability_max") i;
                   wmax :=
                     index_opt (get_opt (daily w) "wind_speed_10m_max") i |})).
  rewrite firstn_map, firstn_seq. f_equal.
  apply map_ext. intros i. now rewrite Nat.sub_0_r.
Qed.

(** C7.  On a daily payload, shaping gives one entry per index of the
    time array, with the date from the time array and every other field
    from its series at that index, or undefined when the series is left
    out or is too short; the entries follow the time array and only the
    first five are kept.  Seven days give five entries, whose dates are
    the first five of the time array in their order. *)
Theorem fiveDay_shape (w : WeatherResponse) (ts : list value) :
  is_daily (daily w) ts ->
  fiveDay (Some w) = inr (shape (daily w) ts) /\
  length (shape (daily w) ts) = Nat.min 5 (length ts) /\
  List.map date (shape (daily w) ts) = firstn 5 ts /\
  (length ts = 7 -> length (shape (daily w) ts) = 5).
Proof.
  intros (O & T & S1 & S2 & S3 & S4 & S5).
  assert (length (shape (daily w) ts) = Nat.min 5 (length ts)) as Len
    by (unfold shape; now rewrite length_map, length_seq).
  split; [|split; [exact Len | split]].
  - rewrite (fiveDay_time w O T). unfold shape. f_equal.
    apply map_ext. intros i. unfold entry.
    now rewrite !index_opt_series.
  - unfold shape. rewrite map_map.
    change (fun x => date (entry (daily w) ts x))
      with (fun i => nth i ts VUndefined).
    now rewrite <- firstn_seq, <- firstn_map, nth_seq.
  - intros L. rewrite Len, L. reflexivity.
Qed.

Lemma fiveDay_shape_witness :
  let ts := List.map (fun d => VStr (lit d))
              ["2024-05-01"; "2024-05-02"; "2024-05-03"; "2024-05-04";
               "2024-05-05"; "2024-05-06"; "2024-05-07"]%string in
  let codes := List.map (fun z => VNum (of_Z z)) [0; 1; 2; 3; 45; 61; 95]%Z in
  let d := VObj [(lit "time", VArr ts);
                 (lit "weather_code", VArr codes);
                 (lit "temperature_2m_max", VArr [VNum (of_Z 21)])] in
  let w := {| w_latitude := VNum (of_Z 28); w_longitude := VNum (of_Z (-82));
              w_timezone := VUndefined; current := VObj []; daily := d |} in
  is_daily (daily w) ts /\
  length ts = 7 /\
  fiveDay (Some w) = inr (shape (daily w) ts) /\
  length (shape (daily w) ts) = 5 /\
  List.map date (shape (daily w) ts) = firstn 5 ts /\
  List.map tmax (shape (daily w) ts)
  = [VNum (of_Z 21); VUndefined; VUndefined; VUndefined; VUndefined].
Proof.
  intros ts codes d w.
  assert (is_daily (daily w) ts) as D.
  { split; [eexists; reflexivity|]. split; [reflexivity|].
    repeat split; solve [left; reflexivity | right; eexists; reflexivity]. }
  destruct (@fiveDay_shape w ts D) as (F & _ & O & L).
  split; [exact D|]. split; [reflexivity|]. split; [exact F|].
  split; [exact (L eq_refl)|]. split; [exact O | reflexivity].
Defined.

(** C8.  A daily payload without the wind series shapes without an error,
    and no entry has a maximal wind speed. *)
Theorem fiveDay_without_wind (w : WeatherResponse) (ts : list value) :
  (exists fields, daily w = VObj fields) ->
  get_opt (daily w) "time" = VArr ts ->
  get_opt (daily w) "wind_speed_10m_max" = VUndefined ->
  exists out,
    fiveDay (Some w) = inr out /\
    length out = Nat.min 5 (length ts) /\
    Forall (fun e => wmax e = VUndefined) out.
Proof.
  intros O T W. eexists. split; [apply (fiveDay_time w O T)|]. split.
  - now rewrite length_map, length_seq.
  - apply Forall_forall. intros e He. apply in_map_iff in He as (i & <- & _).
    simpl. now rewrite W.
Qed.

Lemma fiveDay_without_wind_witness :
  let ts := [VStr (lit "2024-05-01"); VStr (lit "2024-05-02")] in
  let d := VObj [(lit "time", VArr ts);
                 (lit "weather_code", VArr [VNum (of_Z 3); VNum (of_Z 61)])] in
  let w := {| w_latitude := VNum (of_Z 28); w_longitude := VNum (of_Z (-82));
              w_timezone := VUndefined; current := VObj []; daily := d |} in
  (exists fields, daily w = VObj fields) /\
  get_opt (daily w) "time" = VArr ts /\
  get_opt (daily w) "wind_speed_10m_max" = VUndefined /\
  exists out,
    fiveDay (Some w) = inr out /\
    length out = Nat.min 5 (length ts) /\
    Forall (fun e => wmax e = VUndefined) out.
Proof.
  intros ts d w.
  assert (exists fields, daily w = VObj fields) as O by (eexists; reflexivity).
  assert (get_opt (daily w) "time" = VArr ts) as T by reflexivity.
  assert (get_opt (daily w) "wind_speed_10m_max" = VUndefined) as W
    by reflexivity.
  split; [exact O|]. split; [exact T|]. split; [exact W|].
  exact (@fiveDay_without_wind w ts O T W).
Defined.

(** ** Overlapping submissions *)

(** A forecast request that succeeds stores its view and place in the state
    of the moment its replies arrive, whatever that state holds. *)
Lemma resolveAndFetch_commits lat lon chosen p s0 s r raw :
  ok r = true -> nullish raw = false ->
  match chosen with
  | Some c => p = c
  | None => coordinate_place lat lon = inr p
  end ->
  deliver (resolveAndFetch lat lon chosen s0) s
          [Fetched (inr r); Parsed (inr raw)]
  = Some (Ret tt (with_loading false
                    (with_place (Some p) (with_weather (Some (view raw)) s)))).
Proof.
  intros K N P. simpl. rewrite K. simpl. unfold get. rewrite N. simpl.
  destruct chosen as [c|].
  - subst c. reflexivity.
  - rewrite P. reflexivity.
Qed.

(** A submission whose replies arrive in the state [s] of a later moment
    commits its forecast there. *)
Lemma handleSubmit_commits q s0 s rs raw :
  succeeds q rs raw ->
  exists sF,
    deliver (handleSubmit (with_query q s0)) s rs = Some (Ret tt sF) /\
    weather sF = Some (view raw) /\
    place sF = shown_place q rs /\
    error sF = match parseLatLon q with
               | Some _ => error s
               | None => None
               end /\
    loading sF = false.
Proof.
  intros [N S]. unfold shown_place, handleSubmit. simpl query.
  destruct (parseLatLon q) as [[lat lon]|].
  - destruct S as (r & K & ->).
    eexists. split.
    + unfold bind at 1. simpl bind_run.
      apply resolveAndFetch_commits; [exact K | exact N | reflexivity].
    + simpl. repeat split.
  - destruct S as (g & data & r & T & K & ->).
    set (first := index_opt (get_opt data "results") 0) in *.
    assert (exists p, geoResult first = inr p) as (p & G).
    { unfold geoResult, get. destruct first; try discriminate T;
        simpl; eauto. }
    eexists. split.
    + simpl. fold first. rewrite T, G. simpl. rewrite K. simpl.
      unfold get. rewrite N. simpl. reflexivity.
    + rewrite G. simpl. repeat split.
Qed.

(** C3, as the specification states it, fails: the forecast of the first
    submission, arriving last, replaces the view the second one stored. *)
Lemma late_response_overwrites :
  ~ (forall s qA qB rsB rsA sB sF,
       race s qA qB rsB rsA = Some (sB, sF) ->
       weather sF = weather sB /\ error sF = error sB).
Proof.
  intros H.
  pose (rawA := VObj [(lit "timezone", VStr (lit "Asia/Tokyo"))]).
  pose (rawB := VObj [(lit "timezone", VStr (lit "Europe/Paris"))]).
  pose (r := {| status := 200 |}).
  pose (tA := handleSubmit (with_query (lit "35.68, 139.69") initial)).
  pose (tB := handleSubmit (with_query (lit "48.85, 2.35") (store tA))).
  destruct (alone tB [Fetched (inr r); Parsed (inr rawB)])
    as [[[] sB | | |]|] eqn:EB; try (vm_compute in EB; discriminate EB).
  destruct (deliver tA sB [Fetched (inr r); Parsed (inr rawA)])
    as [[[] sF | | |]|] eqn:EA;
    try (vm_compute in EB; injection EB as <-;
         vm_compute in EA; discriminate EA).
  destruct (H initial (lit "35.68, 139.69") (lit "48.85, 2.35")
              [Fetched (inr r); Parsed (inr rawB)]
              [Fetched (inr r); Parsed (inr rawA)] sB sF) as [W _].
  - unfold race. fold tA. fold tB. rewrite EB, EA. reflexivity.
  - vm_compute in EB. injection EB as <-.
    vm_compute in EA. injection EA as <-.
    vm_compute in W. discriminate W.
Qed.

(** C3, amended.  There is no guard against a stale reply.  When the
    replies to the first of two submissions arrive after the second one
    has ended, and they carry a forecast, that forecast is committed: the
    weather view and the place are those of the first submission.  The
    error is the one the second submission left when the first one was a
    coordinate pair, and is cleared when it was free text (its forecast
    step starts, and clears the error, after the second one ended). *)
Theorem late_response_is_committed (s : State) (qA qB : str)
  (rsB rsA : list reply) (rawA : value) (sB : State) :
  alone (handleSubmit (with_query qB (store (handleSubmit (with_query qA s)))))
        rsB
  = Some (Ret tt sB) ->
  succeeds qA rsA rawA ->
  exists sF,
    race s qA qB rsB rsA = Some (sB, sF) /\
    weather sF = Some (view rawA) /\
    place sF = shown_place qA rsA /\
    error sF = match parseLatLon qA with
               | Some _ => error sB
               | None => None
               end /\
    loading sF = false.
Proof.
  intros B A.
  destruct (handleSubmit_commits s sB A) as (sF & D & Hw & Hp & He & Hl).
  exists sF. split; [|auto].
  unfold race. rewrite B, D. reflexivity.
Qed.

Lemma late_response_is_committed_witness :
  let rawA := VObj [(lit "timezone", VStr (lit "Asia/Tokyo"))] in
  let rawB := VObj [(lit "timezone", VStr (lit "Europe/Paris"))] in
  let r := {| status := 200 |} in
  let qA := lit "35.68, 139.69" in
  let qB := lit "48.85, 2.35" in
  let rsA := [Fetched (inr r); Parsed (inr rawA)] in
  let rsB := [Fetched (inr r); Parsed (inr rawB)] in
  exists sB,
    alone (handleSubmit
             (with_query qB (store (handleSubmit (with_query qA initial)))))
          rsB
    = Some (Ret tt sB) /\
    weather sB = Some (view rawB) /\
    succeeds qA rsA rawA /\
    exists sF,
      race initial qA qB rsB rsA = Some (sB, sF) /\
      weather sF = Some (view rawA) /\
      place sF = shown_place qA rsA /\
      error sF = match parseLatLon qA with
                 | Some _ => error sB
                 | None => None
                 end /\
      loading sF = false.
Proof.
  intros rawA rawB r qA qB rsA rsB.
  pose (tB := handleSubmit
                (with_query qB (store (handleSubmit (with_query qA initial))))).
  pose (sB := match alone tB rsB with
              | Some t => store t
              | None => initial
              end).
  assert (alone tB rsB = Some (Ret tt sB)) as B by (vm_compute; reflexivity).
  assert (succeeds qA rsA rawA) as A.
  { split; [reflexivity|].
    destruct (parseLatLon qA) as [[lat lon]|] eqn:E;
      [|vm_compute in E; discriminate E].
    exists r. split; reflexivity. }
  exists sB. split; [exact B|]. split; [vm_compute; reflexivity|].
  split; [exact A|].
  exact (@late_response_is_committed initial qA qB rsB rsA rawA sB B A).
Defined.

(** ** More on the classifier *)

(** X1.  The autosuggest-path test is the pattern and nothing else:
    [isLatLonInput] is true exactly when the trimmed text is a number of
    one or two integer digits, a separator and a number of one to three
    integer digits, whatever the values of the numbers. *)
Theorem isLatLonInput_iff_pattern (q : str) :
  (isLatLonInput q = true <-> exists a b, coord_pattern (trim q) a b) /\
  (isLatLonInput q = false <-> ~ exists a b, coord_pattern (trim q) a b).
Proof.
  pose proof (isLatLonInput_pattern q) as H. split; [exact H|].
  destruct (isLatLonInput q); split; intros A.
  - discriminate A.
  - exfalso. apply A, H. reflexivity.
  - intros B. apply H in B. discriminate B.
  - reflexivity.
Qed.

(** X2.  Every text the submit path takes for coordinates is one the
    autosuggest path leaves alone: [fetchSuggestions] empties the
    suggestion list and sends nothing. *)
Theorem coordinates_suppress_autosuggest (q : str) (s : State) :
  parseLatLon q <> None ->
  isLatLonInput q = true /\
  fetchSuggestions q s = Ret tt (with_suggestions [] s).
Proof.
  intros H. apply parseLatLon_isLatLonInput in H. split; [exact H|].
  unfold fetchSuggestions. rewrite H, orb_true_r. reflexivity.
Qed.

Lemma coordinates_suppress_autosuggest_witness :
  parseLatLon (lit "27.95, -82.46") <> None /\
  isLatLonInput (lit "27.95, -82.46") = true /\
  fetchSuggestions (lit "27.95, -82.46") initial
  = Ret tt (with_suggestions [] initial).
Proof.
  assert (parseLatLon (lit "27.95, -82.46") <> None) as H
    by (vm_compute; discriminate).
  split; [exact H|].
  exact (@coordinates_suppress_autosuggest (lit "27.95, -82.46") initial H).
Defined.

(** X3.  What [parseLatLon] returns is a pair of finite numbers, the
    latitude between -90 and 90 and the longitude between -180 and 180;
    it never returns NaN or an infinity. *)
Theorem parseLatLon_range (q : str) (lat lon : num) :
  parseLatLon q = Some (lat, lon) ->
  exists p r,
    lat = Finite p /\ lon = Finite r /\
    (Qabs p <= 90)%Q /\ (Qabs r <= 180)%Q.
Proof.
  intros H. apply parseLatLon_Some in H as (a & b & _ & _ & _ & B1 & B2).
  destruct lat as [p | |], lon as [r | |]; simpl in B1, B2;
    try discriminate.
  exists p, r. repeat split; now apply Qle_bool_iff.
Qed.

Lemma parseLatLon_range_witness :
  exists lat lon,
    parseLatLon (lit "-90, 180") = Some (lat, lon) /\
    exists p r,
      lat = Finite p /\ lon = Finite r /\
      (Qabs p <= 90)%Q /\ (Qabs r <= 180)%Q.
Proof.
  assert (parseLatLon (lit "-90, 180")
          = Some (Finite (-90), Finite 180)) as H by (vm_compute; reflexivity).
  exists (Finite (-90)), (Finite 180). split; [exact H|].
  exact (@parseLatLon_range (lit "-90, 180") _ _ H).
Defined.

(** ** More on the handlers *)

(** The shape of a run of [resolveAndFetch]: a request, then for an ok
    response the reading of its body, then the end. *)
Lemma resolveAndFetch_tree lat lon chosen s :
  exists k,
    resolveAndFetch lat lon chosen s
    = AwaitFetch (forecast_url lat lon) (cleared s) k /\
    (forall e s1,
        k (inl e) s1 = Ret tt (failed (message_or e "Something went wrong") s1)) /\
    (forall r s1, ok r = false ->
        k (inr r) s1 = Ret tt (failed forecast_failed_message s1)) /\
    (forall r s1, ok r = true ->
        exists k2,
          k (inr r) s1 = AwaitJson r s1 k2 /\
          forall b s2, k2 b s2 = Ret tt (forecast_end lat lon chosen b s2)).
Proof.
  eexists. split; [reflexivity|]. split; [reflexivity|]. split.
  - intros r s1 K. simpl. rewrite K. reflexivity.
  - intros r s1 K. simpl. rewrite K. simpl.
    eexists. split; [reflexivity|].
    intros [e | raw] s2; [reflexivity|].
    unfold forecast_end, place_to_show, get. simpl.
    destruct (nullish raw); [reflexivity|]. simpl.
    destruct chosen as [p|]; [reflexivity|].
    destruct (coordinate_place lat lon); reflexivity.
Qed.

Lemma deliver_ended (A : Type) (a : A) s0 s rs t :
  deliver (Ret a s0) s rs = Some t -> rs = [] /\ t = Ret a s0.
Proof.
  destruct rs as [|r rs]; simpl.
  - intros H. injection H as <-. auto.
  - destruct r; discriminate.
Qed.

Lemma forecast_end_loading lat lon chosen b s :
  loading (forecast_end lat lon chosen b s) = false.
Proof.
  unfold forecast_end. destruct b as [e | raw]; [reflexivity|].
  destruct (get raw "current"); [reflexivity|].
  destruct (place_to_show lat lon chosen); reflexivity.
Qed.

Lemma resolveAndFetch_at_rest (lat lon : value)
  (chosen : option GeoResult) (s : State) (rs : list reply) (t : Run unit) :
  alone (resolveAndFetch lat lon chosen s) rs = Some t -> settled t.
Proof.
  destruct (resolveAndFetch_tree lat lon chosen s) as (k & E & Ke & Kn & Ko).
  rewrite E. unfold alone. simpl store.
  destruct rs as [|[o|o] rs]; simpl; try discriminate.
  { intros H. injection H as <-. reflexivity. }
  destruct o as [e | r].
  { rewrite Ke. intros H. apply deliver_ended in H as [_ ->]. reflexivity. }
  destruct (ok r) eqn:K.
  - destruct (Ko r (cleared s) K) as (k2 & -> & K2). simpl store.
    destruct rs as [|[o|o] rs]; simpl; try discriminate.
    { intros H. injection H as <-. reflexivity. }
    rewrite K2. intros H. apply deliver_ended in H as [_ ->].
    apply forecast_end_loading.
  - rewrite (Kn r _ K). intros H. apply deliver_ended in H as [_ ->].
    reflexivity.
Qed.

(** X4.  [resolveAndFetch] keeps loading on exactly while it waits for the
    forecast service: run on its own, whatever the replies, it is either
    waiting with loading on or has ended with loading off, and no exception
    leaves it.  Before any reply it waits for the forecast request. *)
Theorem resolveAndFetch_settles (lat lon : value)
  (chosen : option GeoResult) (s : State) (rs : list reply) (t : Run unit) :
  alone (resolveAndFetch lat lon chosen s) rs = Some t ->
  settled t /\
  (rs = [] -> exists s1 k, t = AwaitFetch (forecast_url lat lon) s1 k).
Proof.
  intros H. split; [exact (resolveAndFetch_at_rest _ _ _ _ _ H)|].
  intros ->. unfold alone in H. simpl in H. injection H as <-.
  eexists. eexists. reflexivity.
Qed.

Lemma resolveAndFetch_settles_witness :
  let rs := [Fetched (inr {| status := 200 |}); Parsed (inr VNull)] in
  exists t,
    alone (resolveAndFetch (VNum (of_Z 1)) (VNum (of_Z 2)) None initial) rs
    = Some t /\
    settled t.
Proof.
  intros rs.
  eexists. split; [reflexivity|].
  apply (@resolveAndFetch_settles (VNum (of_Z 1)) (VNum (of_Z 2)) None
           initial rs).
  reflexivity.
Defined.

(** The shape of a free-text submission: the geocoding request, the
    reading of its body, and for a first result the forecast step for its
    coordinates. *)
Lemma handleSubmit_tree s :
  parseLatLon (query s) = None ->
  exists k,
    handleSubmit s
    = AwaitFetch (geocoding_url (trim (query s)) "1") (searching s) k /\
    (forall e s1,
        k (inl e) s1
        = Ret tt (failed (message_or e "Failed to resolve location") s1)) /\
    (forall g s1,
        exists k2,
          k (inr g) s1 = AwaitJson g s1 k2 /\
          (forall e s2,
              k2 (inl e) s2
              = Ret tt (failed (message_or e "Failed to resolve location") s2)) /\
          (forall data s2, truthy (first_result data) = false ->
              k2 (inr data) s2 = Ret tt (failed not_found_message s2)) /\
          (forall data s2, truthy (first_result data) = true ->
              exists k3,
                k2 (inr data) s2
                = AwaitFetch (forecast_url (latitude (first_place data))
                                           (longitude (first_place data)))
                             (cleared s2) k3 /\
                (forall e s3,
                    k3 (inl e) s3
                    = Ret tt (failed (message_or e "Something went wrong") s3)) /\
                (forall r s3, ok r = false ->
                    k3 (inr r) s3 = Ret tt (failed forecast_failed_message s3)) /\
                (forall r s3, ok r = true ->
                    exists k4,
                      k3 (inr r) s3 = AwaitJson r s3 k4 /\
                      forall b s4,
                        k4 b s4
                        = Ret tt (forecast_end (latitude (first_place data))
                                               (longitude (first_place data))
                                               (Some (first_place data))
                                               b s4)))).
Proof.
  intros N. unfold handleSubmit. rewrite N.
  eexists. split; [reflexivity|]. split; [reflexivity|].
  intros g s1. eexists. split; [reflexivity|]. split; [reflexivity|]. split.
  - intros data s2 F. unfold first_result in F. simpl. rewrite F. reflexivity.
  - intros data s2 T. unfold first_place, first_result in *.
    simpl. rewrite T. simpl.
    assert (geoResult (index_opt (get_opt data "results") 0)
            = inr (place_of (index_opt (get_opt data "results") 0))) as G.
    { unfold geoResult, get.
      destruct (index_opt (get_opt data "results") 0); try discriminate T;
        reflexivity. }
    rewrite G. simpl.
    eexists. split; [reflexivity|]. split; [reflexivity|]. split.
    + intros r s3 K. simpl. rewrite K. reflexivity.
    + intros r s3 K. simpl. rewrite K. simpl.
      eexists. split; [reflexivity|].
      intros [e | raw] s4; [reflexivity|].
      unfold forecast_end, place_to_show, get. simpl.
      destruct (nullish raw); reflexivity.
Qed.

(** A submission of coordinates is the forecast step for them. *)
Lemma handleSubmit_coordinates s lat lon :
  parseLatLon (query s) = Some (lat, lon) ->
  handleSubmit s
  = resolveAndFetch (VNum lat) (VNum lon) None (with_error None s).
Proof. intros E. unfold handleSubmit. rewrite E. reflexivity. Qed.

Ltac ended H :=
  apply deliver_ended in H as [_ ->]; try reflexivity;
  try apply forecast_end_loading.

(** X5.  [handleSubmit] keeps loading on exactly while it waits for the
    network: run on its own from any state, whatever the query and the
    replies, it is either waiting with loading on or has ended with
    loading off, and no exception leaves it. *)
Theorem handleSubmit_settles (s : State) (rs : list reply) (t : Run unit) :
  alone (handleSubmit s) rs = Some t -> settled t.
Proof.
  destruct (parseLatLon (query s)) as [[lat lon]|] eqn:P.
  { rewrite (handleSubmit_coordinates s P). apply resolveAndFetch_at_rest. }
  destruct (handleSubmit_tree s P) as (k & E & Ke & Kr).
  rewrite E. unfold alone. simpl store.
  destruct rs as [|[o|o] rs]; simpl; try discriminate.
  { intros H. injection H as <-. reflexivity. }
  destruct o as [e | g]; [rewrite Ke; intros H; ended H|].
  destruct (Kr g (searching s)) as (k2 & -> & K2e & K2n & K2f). simpl store.
  destruct rs as [|[o|o] rs]; simpl; try discriminate.
  { intros H. injection H as <-. reflexivity. }
  destruct o as [e | data]; [rewrite K2e; intros H; ended H|].
  destruct (truthy (first_result data)) eqn:T;
    [|rewrite (K2n data _ T); intros H; ended H].
  destruct (K2f data (searching s) T) as (k3 & -> & K3e & K3n & K3o).
  simpl store.
  destruct rs as [|[o|o] rs]; simpl; try discriminate.
  { intros H. injection H as <-. reflexivity. }
  destruct o as [e | r]; [rewrite K3e; intros H; ended H|].
  destruct (ok r) eqn:K; [|rewrite (K3n r _ K); intros H; ended H].
  destruct (K3o r (cleared (searching s)) K) as (k4 & -> & K4). simpl store.
  destruct rs as [|[o|o] rs]; simpl; try discriminate.
  { intros H. injection H as <-. reflexivity. }
  rewrite K4. intros H. ended H.
Qed.

Lemma handleSubmit_settles_witness :
  let s := with_loading true (with_query (lit "Paris") initial) in
  let rs := [Fetched (inr {| status := 200 |});
             Parsed (inr (VObj [(lit "results", VArr [VNull])]))] in
  exists t, alone (handleSubmit s) rs = Some t /\ settled t.
Proof.
  intros s rs. eexists. split; [reflexivity|].
  apply (@handleSubmit_settles s rs). reflexivity.
Defined.

(** X6.  When the geocoding request of a free-text submission does not
    complete, or its body cannot be read, the submission ends there: the
    error is the message of the failure (or "Failed to resolve location"
    when it has none), loading is off, the weather view and the place are
    the ones held before, and no forecast request is sent. *)
Theorem geocoding_failure_reported (s : State) (e : exn) (rs : list reply) :
  parseLatLon (query s) = None ->
  rs = [Fetched (inl e)] \/
  (exists g, rs = [Fetched (inr g); Parsed (inl e)]) ->
  exists s',
    alone (handleSubmit s) rs = Some (Ret tt s') /\
    error s' = Some (message_or e "Failed to resolve location") /\
    loading s' = false /\
    weather s' = weather s /\
    place s' = place s.
Proof.
  intros P R.
  destruct (handleSubmit_tree s P) as (k & E & Ke & Kr).
  rewrite E. unfold alone. simpl store.
  destruct R as [-> | (g & ->)]; simpl.
  - rewrite Ke. eexists. split; [reflexivity|]. repeat split.
  - destruct (Kr g (searching s)) as (k2 & -> & K2e & _). simpl.
    rewrite K2e. eexists. split; [reflexivity|]. repeat split.
Qed.

Lemma geocoding_failure_reported_witness :
  let held := view (VObj [(lit "current", VObj [])]) in
  let s := with_weather (Some held) (with_query (lit "Paris") initial) in
  let e := Exn (lit "TypeError") None in
  let rs := [Fetched (inl e)] in
  parseLatLon (query s) = None /\
  exists s',
    alone (handleSubmit s) rs = Some (Ret tt s') /\
    error s' = Some (lit "Failed to resolve location") /\
    loading s' = false /\
    weather s' = Some held /\
    place s' = None.
Proof.
  intros held s e rs.
  assert (parseLatLon (query s) = None) as P by (vm_compute; reflexivity).
  split; [exact P|].
  exact (@geocoding_failure_reported s e rs P (or_introl eq_refl)).
Defined.



(** X8.  When the forecast response is ok but its body cannot be read, or
    reads as [null], [resolveAndFetch] ends in an error with the weather
    view null and the place left as it was: no view is stored. *)
Theorem forecast_body_unusable (lat lon : value) (chosen : option GeoResult)
  (s : State) (r : Response) (b : result value) :
  ok r = true ->
  match b with
  | inl _ => True
  | inr raw => nullish raw = true
  end ->
  exists s' message,
    alone (resolveAndFetch lat lon chosen s) [Fetched (inr r); Parsed b]
    = Some (Ret tt s') /\
    error s' = Some message /\
    weather s' = None /\
    place s' = place s /\
    loading s' = false.
Proof.
  intros K B.
  destruct (resolveAndFetch_tree lat lon chosen s) as (k & E & _ & _ & Ko).
  rewrite E. unfold alone. simpl.
  destruct (Ko r (cleared s) K) as (k2 & -> & K2). simpl. rewrite K2.
  destruct b as [e | raw]; simpl.
  - eexists. eexists. split; [reflexivity|]. repeat split.
  - unfold get. rewrite B.
    eexists. eexists. split; [reflexivity|]. repeat split.
Qed.

Lemma forecast_body_unusable_witness :
  let p := place_of (VObj [(lit "name", VStr (lit "Paris"))]) in
  let s := with_place (Some p) initial in
  let r := {| status := 200 |} in
  ok r = true /\
  nullish VNull = true /\
  exists s' message,
    alone (resolveAndFetch (VNum (of_Z 49)) (VNum (of_Z 2)) None s)
          [Fetched (inr r); Parsed (inr VNull)]
    = Some (Ret tt s') /\
    error s' = Some message /\
    weather s' = None /\
    place s' = Some p /\
    loading s' = false.
Proof.
  intros p s r.
  assert (ok r = true) as K by reflexivity.
  assert (nullish VNull = true) as B by reflexivity.
  split; [exact K|]. split; [exact B|].
  exact (@forecast_body_unusable (VNum (of_Z 49)) (VNum (of_Z 2)) None s r
           (inr VNull) K B).
Defined.

(** X9.  [resolveAndFetch] takes any body that is not [null] for a
    forecast, without looking at its fields: after an ok response the
    stored view is made of whatever the body holds under [latitude],
    [longitude], [timezone], [current] and [daily] ([undefined] for what
    is missing), the place is the chosen one, the error is null and
    loading is off; the query and the suggestions are not touched. *)
Theorem forecast_body_stored (lat lon : value) (p : GeoResult) (s : State)
  (r : Response) (raw : value) :
  ok r = true ->
  nullish raw = false ->
  exists s',
    alone (resolveAndFetch lat lon (Some p) s)
          [Fetched (inr r); Parsed (inr raw)]
    = Some (Ret tt s') /\
    weather s' = Some (view raw) /\
    place s' = Some p /\
    error s' = None /\
    loading s' = false /\
    query s' = query s /\
    suggestions s' = suggestions s.
Proof.
  intros K N.
  destruct (resolveAndFetch_tree lat lon (Some p) s) as (k & E & _ & _ & Ko).
  rewrite E. unfold alone. simpl.
  destruct (Ko r (cleared s) K) as (k2 & -> & K2). simpl. rewrite K2.
  unfold forecast_end, get. rewrite N. simpl.
  eexists. split; [reflexivity|]. repeat split.
Qed.

Lemma forecast_body_stored_witness :
  let p := place_of (VObj [(lit "name", VStr (lit "Paris"))]) in
  let r := {| status := 200 |} in
  let raw := VObj [] in
  ok r = true /\
  nullish raw = false /\
  exists s',
    alone (resolveAndFetch (VNum (of_Z 49)) (VNum (of_Z 2)) (Some p) initial)
          [Fetched (inr r); Parsed (inr raw)]
    = Some (Ret tt s') /\
    weather s'
    = Some {| w_latitude := VUndefined; w_longitude := VUndefined;
              w_timezone := VUndefined; current := VUndefined;
              daily := VUndefined |} /\
    place s' = Some p /\
    error s' = None /\
    loading s' = false /\
    query s' = query initial /\
    suggestions s' = suggestions initial.
Proof.
  intros p r raw.
  assert (ok r = true) as K by reflexivity.
  assert (nullish raw = false) as N by reflexivity.
  split; [exact K|]. split; [exact N|].
  exact (@forecast_body_stored (VNum (of_Z 49)) (VNum (of_Z 2)) p initial r
           raw K N).
Defined.

(** ** More on autosuggest *)

(** Mapping the place builder over results none of which is [null] or
    [undefined]. *)
Lemma traverse_geoResult items : forall i,
  forallb (fun r => negb (nullish r)) items = true ->
  traverse_from i (fun r _ => geoResult r) items
  = inr (List.map place_of items).
Proof.
  induction items as [|r items IH]; intros i H; simpl; [reflexivity|].
  simpl in H. apply andb_prop in H as [Hr H].
  rewrite (IH (S i) H).
  unfold geoResult, get. apply negb_true_iff in Hr. rewrite Hr. reflexivity.
Qed.

(** The first [null] or [undefined] among the results stops the mapping. *)
Lemma traverse_geoResult_null items : forall i,
  forallb (fun r => negb (nullish r)) items = false ->
  exists e, traverse_from i (fun r _ => geoResult r) items = inl e /\
            is_TypeError e.
Proof.
  induction items as [|r items IH]; intros i H; simpl in *; [discriminate|].
  unfold geoResult at 1, get.
  destruct (nullish r) eqn:N; simpl in *.
  - eexists. split; reflexivity.
  - destruct (IH (S i) H) as (e & -> & T). eauto.
Qed.

(** X10.  When the geocoder answers an autosuggest lookup with an array of
    results, none of them [null], the suggestions become the places made
    from all of them, in their order: the list is as long as the array,
    whatever the status of the response, and the error is not touched. *)
Theorem autosuggest_results_shown (text : str) (s : State) (r : Response)
  (data : value) (items : list value) :
  text <> [] -> isLatLonInput text = false ->
  get_opt data "results" = VArr items ->
  forallb (fun v => negb (nullish v)) items = true ->
  alone (fetchSuggestions text s) [Fetched (inr r); Parsed (inr data)]
  = Some (Ret tt (with_suggestions (List.map place_of items) s)) /\
  length (List.map place_of items) = length items.
Proof.
  intros N L R A. split; [|apply length_map].
  destruct (fetchSuggestions_start s N L) as (k & -> & _ & Kr).
  unfold alone. simpl.
  destruct (Kr r s) as (k2 & -> & _ & K2d). simpl. rewrite K2d, R.
  unfold or_else. simpl. now rewrite traverse_geoResult.
Qed.

Lemma autosuggest_results_shown_witness :
  let hit n := VObj [(lit "id", VNum (of_Z n));
                     (lit "name", VStr (lit "Springfield"))] in
  let items := List.map hit [1; 2; 3; 4; 5; 6; 7]%Z in
  let data := VObj [(lit "results", VArr items)] in
  let r := {| status := 200 |} in
  lit "Spring" <> [] /\ isLatLonInput (lit "Spring") = false /\
  get_opt data "results" = VArr items /\
  forallb (fun v => negb (nullish v)) items = true /\
  alone (fetchSuggestions (lit "Spring") initial)
        [Fetched (inr r); Parsed (inr data)]
  = Some (Ret tt (with_suggestions (List.map place_of items) initial)) /\
  length (List.map place_of items) = 7.
Proof.
  intros hit items data r.
  assert (lit "Spring" <> []) as N by discriminate.
  assert (isLatLonInput (lit "Spring") = false) as L
    by (vm_compute; reflexivity).
  assert (get_opt data "results" = VArr items) as R by reflexivity.
  assert (forallb (fun v => negb (nullish v)) items = true) as A
    by reflexivity.
  split; [exact N|]. split; [exact L|]. split; [exact R|]. split; [exact A|].
  exact (@autosuggest_results_shown (lit "Spring") initial r data items
           N L R A).
Defined.

(** X11.  One [null] among the results of an autosuggest lookup discards
    them all: building its place throws, the error is swallowed, and the
    state, suggestions included, stays as it was. *)
Theorem autosuggest_null_result (text : str) (s : State) (r : Response)
  (data : value) (items : list value) :
  text <> [] -> isLatLonInput text = false ->
  get_opt data "results" = VArr items ->
  forallb (fun v => negb (nullish v)) items = false ->
  alone (fetchSuggestions text s) [Fetched (inr r); Parsed (inr data)]
  = Some (Ret tt s).
Proof.
  intros N L R A.
  destruct (fetchSuggestions_start s N L) as (k & -> & _ & Kr).
  unfold alone. simpl.
  destruct (Kr r s) as (k2 & -> & _ & K2d). simpl. rewrite K2d, R.
  unfold or_else. simpl.
  destruct (traverse_geoResult_null items 0 A) as (e & -> & _). reflexivity.
Qed.

Lemma autosuggest_null_result_witness :
  let hit := VObj [(lit "name", VStr (lit "Springfield"))] in
  let items := [hit; VNull; hit] in
  let data := VObj [(lit "results", VArr items)] in
  let s := with_suggestions [place_of hit] initial in
  lit "Spring" <> [] /\ isLatLonInput (lit "Spring") = false /\
  get_opt data "results" = VArr items /\
  forallb (fun v => negb (nullish v)) items = false /\
  alone (fetchSuggestions (lit "Spring") s)
        [Fetched (inr {| status := 200 |}); Parsed (inr data)]
  = Some (Ret tt s).
Proof.
  intros hit items data s.
  assert (lit "Spring" <> []) as N by discriminate.
  assert (isLatLonInput (lit "Spring") = false) as L
    by (vm_compute; reflexivity).
  assert (get_opt data "results" = VArr items) as R by reflexivity.
  assert (forallb (fun v => negb (nullish v)) items = false) as A
    by reflexivity.
  split; [exact N|]. split; [exact L|]. split; [exact R|]. split; [exact A|].
  exact (@autosuggest_null_result (lit "Spring") s {| status := 200 |} data
           items N L R A).
Defined.

(** X12.  [fetchSuggestions] sends a request exactly for a text that is not
    empty and does not match the coordinate pattern once trimmed; the
    request carries the text as typed, and leaves the state as it is.  For
    every other text it sends nothing and empties the suggestion list. *)
Theorem fetchSuggestions_request (text : str) (s : State) :
  (text <> [] /\ ~ (exists a b, coord_pattern (trim text) a b) ->
   exists k,
     fetchSuggestions text s = AwaitFetch (geocoding_url text "5") s k) /\
  (text = [] \/ (exists a b, coord_pattern (trim text) a b) ->
   fetchSuggestions text s = Ret tt (with_suggestions [] s)).
Proof.
  split.
  - intros [N P].
    assert (isLatLonInput text = false) as L.
    { destruct (isLatLonInput text) eqn:L; [|reflexivity].
      exfalso. apply P, isLatLonInput_pattern, L. }
    destruct (fetchSuggestions_start s N L) as (k & E & _). eauto.
  - intros [-> | P]; [reflexivity|].
    apply isLatLonInput_pattern in P.
    unfold fetchSuggestions. rewrite P, orb_true_r. reflexivity.
Qed.

Lemma isLatLonInput_iff_false q :
  isLatLonInput q = false -> ~ exists a b, coord_pattern (trim q) a b.
Proof.
  intros L P. apply isLatLonInput_pattern in P. congruence.
Qed.

Lemma fetchSuggestions_request_witness :
  (exists k,
     fetchSuggestions (lit " Paris") initial
     = AwaitFetch (geocoding_url (lit " Paris") "5") initial k) /\
  fetchSuggestions (lit " 48.85 2.35 ") initial
  = Ret tt (with_suggestions [] initial).
Proof.
  destruct (@fetchSuggestions_request (lit " Paris") initial) as [A _].
  destruct (@fetchSuggestions_request (lit " 48.85 2.35 ") initial) as [_ B].
  split.
  - apply A. split; [discriminate|].
    apply isLatLonInput_iff_false. vm_compute. reflexivity.
  - apply B. right. apply isLatLonInput_pattern. vm_compute. reflexivity.
Defined.

(** ** More on forecast shaping *)

(** X13.  Whatever is stored as the weather view, the five-day strip never
    has more than five entries; without a view it is empty. *)
Theorem fiveDay_at_most_five (w : option WeatherResponse) (out : list Day) :
  fiveDay w = inr out ->
  length out <= 5 /\ (w = None -> out = []).
Proof.
  intros H. split.
  - destruct w as [w|]; unfold fiveDay in H.
    + destruct (negb (truthy (daily w))).
      * injection H as <-. simpl. lia.
      * destruct (array_map _ _) as [e | l]; [discriminate|].
        injection H as <-. change (length (firstn 5 l) <= 5).
        apply firstn_le_length.
    + injection H as <-. simpl. lia.
  - intros ->. simpl in H. now injection H as <-.
Qed.

Lemma fiveDay_at_most_five_witness :
  let ts := List.map (fun z => VNum (of_Z z)) [1; 2; 3; 4; 5; 6; 7; 8; 9]%Z in
  let w := view (VObj [(lit "daily", VObj [(lit "time", VArr ts)])]) in
  exists out,
    fiveDay (Some w) = inr out /\
    length out <= 5 /\ (Some w = None -> out = []).
Proof.
  intros ts w. eexists. split; [reflexivity|].
  apply (@fiveDay_at_most_five (Some w)). reflexivity.
Defined.

(** X14.  A view whose daily payload is there but holds no time array
    makes the five-day strip throw a [TypeError]; a view without a daily
    payload gives the empty strip. *)
Theorem fiveDay_needs_time (w : WeatherResponse) :
  (truthy (daily w) = false -> fiveDay (Some w) = inr []) /\
  (truthy (daily w) = true ->
   (forall ts, get_opt (daily w) "time" <> VArr ts) ->
   exists e, fiveDay (Some w) = inl e /\ is_TypeError e).
Proof.
  split; intros T.
  - unfold fiveDay. now rewrite T.
  - intros N. unfold fiveDay. rewrite T. simpl negb. cbv iota.
    unfold array_map.
    destruct (get_opt (daily w) "time") as [| | | | |ts|] eqn:E;
      try (eexists; split; reflexivity).
    exfalso. now apply (N ts).
Qed.

Lemma fiveDay_needs_time_witness :
  let w := view (VObj [(lit "daily", VObj [(lit "weather_code", VArr [])])]) in
  truthy (daily w) = true /\
  (forall ts, get_opt (daily w) "time" <> VArr ts) /\
  exists e, fiveDay (Some w) = inl e /\ is_TypeError e.
Proof.
  intros w.
  assert (truthy (daily w) = true) as T by reflexivity.
  assert (forall ts, get_opt (daily w) "time" <> VArr ts) as N
    by (intros ts; discriminate).
  split; [exact T|]. split; [exact N|].
  exact (proj2 (@fiveDay_needs_time w) T N).
Defined.

(** ** Device location *)

(** X15.  Without a device position nothing is sent to either service.
    When the browser has no geolocation, [useMyLocation] asks for no
    position and leaves the message that it is not supported; when the
    device answers with an error, the handler ends at once with loading
    off and the error's message (or "Failed to get your location" for an
    empty one).  In both cases the weather view and the place stay. *)
Theorem location_failure (s : State) (message : str) :
  (exists s',
      useMyLocation false s = (s', None) /\
      error s' = Some (lit "Geolocation not supported in this browser") /\
      loading s' = loading s /\
      weather s' = weather s /\ place s' = place s) /\
  (exists s',
      locate true (PositionError message) s = Some (Ret tt s') /\
      error s' = Some (text_or message "Failed to get your location") /\
      loading s' = false /\
      weather s' = weather s /\ place s' = place s).
Proof.
  split; eexists; (split; [reflexivity|]); repeat split.
Qed.

(** X16.  With a device position, [useMyLocation] asks for it with high
    accuracy, a timeout of ten seconds and a cached position of at most
    five minutes, and turns loading on; the position goes straight to the
    forecast service, and when the forecast arrives the place shown is the
    one made from the coordinates, with id 0. *)
Theorem location_success (s : State) (la lo : num) (r : Response)
  (raw : value) :
  ok r = true -> nullish raw = false ->
  (exists s1 q,
      useMyLocation true s = (s1, Some q) /\
      options q = {| enableHighAccuracy := true; timeout := 10000;
                     maximumAge := 300000 |} /\
      loading s1 = true /\ error s1 = None) /\
  exists t s' p,
    locate true (Position la lo) s = Some t /\
    (exists s1 k, t = AwaitFetch (forecast_url (VNum la) (VNum lo)) s1 k) /\
    alone t [Fetched (inr r); Parsed (inr raw)] = Some (Ret tt s') /\
    weather s' = Some (view raw) /\
    place s' = Some p /\
    id p = VNum (of_Z 0) /\ name p = CoordLabel la lo /\
    latitude p = VNum la /\ longitude p = VNum lo /\
    error s' = None /\ loading s' = false.
Proof.
  intros K N. split.
  - eexists. eexists. split; [reflexivity|]. repeat split.
  - eexists. eexists. eexists. split; [reflexivity|]. split.
    + eexists. eexists. reflexivity.
    + split.
      * unfold alone. simpl. rewrite K. simpl. unfold get. rewrite N.
        simpl. reflexivity.
      * repeat split.
Qed.

Lemma location_success_witness :
  let r := {| status := 200 |} in
  let raw := VObj [(lit "timezone", VStr (lit "Europe/Paris"))] in
  let la := of_Z 49 in
  let lo := of_Z 2 in
  ok r = true /\ nullish raw = false /\
  exists t s' p,
    locate true (Position la lo) initial = Some t /\
    (exists s1 k, t = AwaitFetch (forecast_url (VNum la) (VNum lo)) s1 k) /\
    alone t [Fetched (inr r); Parsed (inr raw)] = Some (Ret tt s') /\
    weather s' = Some (view raw) /\
    place s' = Some p /\
    id p = VNum (of_Z 0) /\ name p = CoordLabel la lo /\
    latitude p = VNum la /\ longitude p = VNum lo /\
    error s' = None /\ loading s' = false.
Proof.
  intros r raw la lo.
  assert (ok r = true) as K by reflexivity.
  assert (nullish raw = false) as N by reflexivity.
  split; [exact K|]. split; [exact N|].
  exact (proj2 (@location_success initial la lo r raw K N)).
Defined.

(** ** The autosuggest timer *)

Lemma edit_changes now q t :
  Str.eqb q (query (page t)) = false ->
  edit now q t
  = {| page := with_query q (page t);
       timer := Some {| due := now + 300; text := q |} |}.
Proof. intros H. unfold edit. now rewrite H. Qed.

Lemma elapse_not_due now q edits t :
  not_due ((now, q) :: edits) t -> elapse now t = (t, []).
Proof.
  unfold not_due, elapse. destruct (timer t) as [tm|]; [|reflexivity].
  intros H. apply N.leb_gt in H. now rewrite H.
Qed.

(** During a burst nothing is looked up, and after each key a timer is
    pending for the text of that key. *)
Lemma burst_silent edits : forall start q t,
  burst start q edits -> query (page t) = q -> not_due edits t ->
  edits <> [] ->
  exists s',
    typing edits t
    = ({| page := s';
          timer := Some {| due := fst (last edits (0%N, [])) + 300;
                           text := snd (last edits (0%N, [])) |} |},
       []) /\
    query s' = snd (last edits (0%N, [])).
Proof.
  induction edits as [|[t1 q1] edits IH]; intros start q t B Q D N;
    [congruence|]. clear N.
  destruct B as (Le & Ne & Gap & B).
  unfold typing; fold typing. rewrite (@elapse_not_due t1 q1 edits t D).
  rewrite <- Q in Ne. rewrite (@edit_changes t1 q1 t Ne).
  destruct edits as [|[t2 q2] edits].
  - simpl. eexists. split; reflexivity.
  - destruct (IH t1 q1
                {| page := with_query q1 (page t);
                   timer := Some {| due := t1 + 300; text := q1 |} |}
                B eq_refl Gap ltac:(discriminate)) as (s' & E & Q').
    rewrite E.
    exists s'. split; [reflexivity | exact Q'].
Qed.

(** X17.  Typing is debounced.  On a page with no timer pending, keys that
    come less than 300 ms apart (each changing the text) cause no lookup
    while they come; 300 ms after the last key exactly one lookup is made,
    for the text as that key left it. *)
Theorem typing_debounced (edits : list (N * str)) (t : Typing) :
  timer t = None ->
  burst 0 (query (page t)) edits ->
  edits <> [] ->
  let last_key := last edits (0%N, []) in
  exists t',
    typing edits t = (t', []) /\
    query (page t') = snd last_key /\
    (forall now, (now < fst last_key + 300)%N -> elapse now t' = (t', [])) /\
    (forall now, (fst last_key + 300 <= now)%N ->
       snd (elapse now t') = [(fst last_key + 300, snd last_key)%N] /\
       timer (fst (elapse now t')) = None).
Proof.
  intros T B N last_key.
  assert (not_due edits t) as D.
  { unfold not_due. rewrite T. destruct edits as [|[? ?] ?]; exact I. }
  destruct (@burst_silent edits 0%N (query (page t)) t B eq_refl D N)
    as (s' & E & Q).
  fold last_key in E, Q.
  eexists. split; [exact E|]. split; [exact Q|]. split.
  - intros now L. unfold elapse. simpl.
    apply N.leb_gt in L. now rewrite L.
  - intros now L. unfold elapse. simpl.
    apply N.leb_le in L. rewrite L. split; reflexivity.
Qed.

Lemma typing_debounced_witness :
  let t := {| page := initial; timer := None |} in
  let edits := [(1000, lit "P"); (1120, lit "Pa"); (1390, lit "Par");
                (1500, lit "Pari"); (1799, lit "Paris")]%N in
  timer t = None /\ burst 0 (query (page t)) edits /\ edits <> [] /\
  exists t',
    typing edits t = (t', []) /\
    query (page t') = lit "Paris" /\
    (forall now, (now < 2099)%N -> elapse now t' = (t', [])) /\
    (forall now, (2099 <= now)%N ->
       snd (elapse now t') = [(2099, lit "Paris")%N] /\
       timer (fst (elapse now t')) = None).
Proof.
  intros t edits.
  assert (timer t = None) as T by reflexivity.
  assert (burst 0 (query (page t)) edits) as B.
  { simpl. repeat split; try reflexivity; try lia. }
  assert (edits <> []) as N by discriminate.
  split; [exact T|]. split; [exact B|]. split; [exact N|].
  exact (@typing_debounced edits t T B N).
Defined.

Lemma fetchSuggestions_keeps_query text s :
  query (store (fetchSuggestions text s)) = query s.
Proof.
  unfold fetchSuggestions.
  destruct (_ || _)%bool; reflexivity.
Qed.

Lemma elapse_coherent now t : coherent t -> coherent (fst (elapse now t)).
Proof.
  unfold coherent, elapse. destruct (timer t) as [tm|] eqn:T.
  - destruct (N.leb (due tm) now); simpl; [exact (fun _ => I)|].
    now rewrite T.
  - simpl. now rewrite T.
Qed.

Lemma edit_coherent now q t : coherent t -> coherent (edit now q t).
Proof.
  unfold edit. destruct (Str.eqb q (query (page t))); [auto|].
  intros _. reflexivity.
Qed.

Lemma typing_coherent edits : forall t,
  coherent t -> coherent (fst (typing edits t)).
Proof.
  induction edits as [|[now q] edits IH]; intros t C; [exact C|].
  simpl. destruct (elapse now t) as [t1 calls] eqn:E.
  destruct (typing edits (edit now q t1)) as [t2 calls'] eqn:Ty.
  simpl. replace t2 with (fst (typing edits (edit now q t1)))
    by now rewrite Ty.
  apply IH, edit_coherent.
  replace t1 with (fst (elapse now t)) by now rewrite E.
  now apply elapse_coherent.
Qed.

(** X18.  A lookup is never for a stale text.  From the first render on,
    whatever is typed and whenever, a timer that fires calls
    [fetchSuggestions] with the query of the page at that moment, and the
    call leaves the query as it is. *)
Theorem lookup_for_current_query (s : State) (edits : list (N * str))
  (now : N) :
  let t := fst (typing edits (mount s)) in
  match elapse now t with
  | (t', calls) =>
      query (page t') = query (page t) /\
      forall d q, In (d, q) calls -> q = query (page t)
  end.
Proof.
  intros t.
  assert (coherent t) as C by (apply typing_coherent; reflexivity).
  unfold coherent in C. unfold elapse.
  destruct (timer t) as [tm|]; [|split; [reflexivity | intros ? ? []]].
  destruct (N.leb (due tm) now); [|split; [reflexivity | intros ? ? []]].
  simpl. split; [apply fetchSuggestions_keeps_query|].
  intros d q [H | []]. injection H as _ <-. exact C.
Qed.

(** ** Whole coordinates *)

Lemma same_eq x y : same x y = true -> x = y.
Proof.
  destruct x as [[a b] | a |], y as [[c d] | c |]; simpl; try discriminate.
  - intros H. apply andb_prop in H as [H1 H2].
    apply Z.eqb_eq in H1. apply Pos.eqb_eq in H2. now subst.
  - intros H. apply Bool.eqb_prop in H. now subst.
  - reflexivity.
Qed.

Lemma digits_upto_number n w sg :
  sg = [] \/ sg = lit "-" ->
  digits_upto n w = true -> is_number n (sg ++ w).
Proof.
  intros S H. unfold digits_upto in H.
  apply andb_prop in H as [H L2]. apply andb_prop in H as [D L1].
  apply Nat.leb_le in L1, L2.
  exists sg, w, []. rewrite app_nil_r. repeat split; auto.
Qed.

Lemma whole_number_sound n w : whole_number n w = true -> is_number n w.
Proof.
  destruct w as [|c w]; simpl; [discriminate|].
  destruct (is_char "-" c) eqn:C.
  - apply is_char_eq in C. subst c.
    apply (@digits_upto_number n w (lit "-")). now right.
  - apply (@digits_upto_number n (c :: w) []). now left.
Qed.

Lemma upto_complete bound z :
  (- Z.of_nat bound <= z <= Z.of_nat bound)%Z -> In z (upto bound).
Proof.
  intros H. unfold upto. apply in_map_iff.
  exists (Z.to_nat (z + Z.of_nat bound)). split; [lia|].
  apply in_seq. lia.
Qed.

Lemma reads_back_latitudes :
  forallb (reads_back 2 90) (upto 90) = true.
Proof. vm_compute. reflexivity. Qed.

Lemma reads_back_longitudes :
  forallb (reads_back 3 180) (upto 180) = true.
Proof. vm_compute. reflexivity. Qed.

Lemma forallb_rev (p : char -> bool) w :
  forallb p w = true -> forallb p (rev w) = true.
Proof.
  rewrite !forallb_forall. intros H x Hx. apply H. now apply in_rev.
Qed.

(** Trimming takes the white space off both ends, and nothing more. *)
Lemma trim_margins ws1 m ws2 :
  forallb is_space ws1 = true -> forallb is_space ws2 = true ->
  m <> [] -> stops is_space m -> stops is_space (rev m) ->
  trim (ws1 ++ m ++ ws2) = m.
Proof.
  intros W1 W2 N S1 S2. unfold trim, trimStart, trimEnd.
  rewrite dropWhile_prefix; auto.
  - rewrite rev_app_distr, dropWhile_prefix; auto using forallb_rev.
    apply rev_involutive.
  - destruct m; [congruence | exact S1].
Qed.

Lemma number_margins n a w b :
  is_number n a -> is_number n b ->
  let m := a ++ w ++ b in
  m <> [] /\ stops is_space m /\ stops is_space (rev m).
Proof.
  intros Na Nb m.
  apply number_chars in Na as [Nea Aa], Nb as [Neb Ab].
  split; [|split].
  - unfold m. destruct a; [congruence | discriminate].
  - apply (@stops_app is_space is_numchar); auto using numchar_not_space.
  - unfold m. rewrite !rev_app_distr, <- app_assoc.
    apply (@stops_app is_space is_numchar);
      auto using numchar_not_space, forallb_rev.
    intros E. apply (f_equal (@rev char)) in E.
    rewrite rev_involutive in E. auto.
Qed.

Lemma number_weaken n m w : n <= m -> is_number n w -> is_number m w.
Proof.
  intros L (sg & ip & fp & E & S & Len & D & F).
  exists sg, ip, fp. repeat split; auto; lia.
Qed.

(** X19.  Whole coordinates read back.  A latitude from -90 to 90 and a
    longitude from -180 to 180, typed as whole numbers with any run of
    commas and white space between them and any white space around them,
    are a coordinate pair for [parseLatLon], which returns exactly these
    two numbers. *)
Theorem whole_coordinates_read_back (lat lon : Z) (ws1 sep ws2 : str) :
  (-90 <= lat <= 90)%Z -> (-180 <= lon <= 180)%Z ->
  sep <> [] -> forallb is_sep sep = true ->
  forallb is_space ws1 = true -> forallb is_space ws2 = true ->
  parseLatLon (ws1 ++ (decimal lat ++ sep ++ decimal lon) ++ ws2)
  = Some (of_Z lat, of_Z lon).
Proof.
  intros Hlat Hlon Ns As W1 W2.
  pose proof reads_back_latitudes as Rlat.
  pose proof reads_back_longitudes as Rlon.
  rewrite forallb_forall in Rlat, Rlon.
  specialize (Rlat lat (upto_complete 90 Hlat)).
  specialize (Rlon lon (upto_complete 180 Hlon)).
  unfold reads_back in Rlat, Rlon.
  apply andb_prop in Rlat as [Rlat Blat]. apply andb_prop in Rlat as [Wlat Plat].
  apply andb_prop in Rlon as [Rlon Blon]. apply andb_prop in Rlon as [Wlon Plon].
  apply whole_number_sound in Wlat, Wlon.
  apply same_eq in Plat, Plon.
  apply parseLatLon_Some.
  exists (decimal lat), (decimal lon).
  assert (2 <= 3) as L23 by lia.
  destruct (@number_margins 3 (decimal lat) sep (decimal lon)
              (@number_weaken 2 3 _ L23 Wlat) Wlon) as (Ne & S1 & S2).
  rewrite trim_margins; auto.
  split; [|split; [exact Plat | split; [exact Plon | split; assumption]]].
  exists sep. repeat split; auto.
Qed.

Lemma whole_coordinates_read_back_witness :
  parseLatLon (lit "  -33,, 151 ") = Some (of_Z (-33), of_Z 151).
Proof.
  apply (@whole_coordinates_read_back (-33) 151 (lit "  ") (lit ",, ")
           (lit " ")); try lia; try reflexivity; discriminate.
Defined.

(** ** Labels *)

(** X20.  The label of a place whose name, region and country are strings
    or left out is the ones that are there and not empty, in that order,
    with [", "] between them: a part that is missing leaves no comma
    behind. *)
Theorem formatPlace_parts (nts : Q -> str) (g : GeoResult) (v : value)
  (n a c : str) :
  name g = Name v ->
  text_of v = Some n ->
  text_of (admin1 g) = Some a ->
  text_of (country g) = Some c ->
  formatPlace nts g = inr (commas (filter nonempty [n; a; c])).
Proof.
  intros N Tn Ta Tc. unfold formatPlace. rewrite N. simpl label_value.
  destruct v as [| | | |[|n1 n'] | |]; try discriminate Tn;
    injection Tn as <-;
    destruct (admin1 g) as [| | | |[|a1 a'] | |]; try discriminate Ta;
    injection Ta as <-;
    destruct (country g) as [| | | |[|c1 c'] | |]; try discriminate Tc;
    injection Tc as <-;
    reflexivity.
Qed.

Lemma formatPlace_parts_witness :
  let g := place_of (VObj [(lit "name", VStr (lit "Tampa"));
                           (lit "admin1", VStr []);
                           (lit "country", VStr (lit "United States"))]) in
  formatPlace (fun _ => []) g = inr (lit "Tampa, United States").
Proof.
  intros g.
  exact (@formatPlace_parts (fun _ => []) g (VStr (lit "Tampa"))
           (lit "Tampa") [] (lit "United States")
           eq_refl eq_refl eq_refl eq_refl).
Defined.








(** ** Picking a suggestion *)

(** X22.  A click on a suggestion asks the forecast service, not the
    geocoder: the query becomes the label of the suggestion, the
    suggestion list is emptied at once, and the forecast is requested for
    the coordinates the suggestion holds.  When the forecast arrives the
    place shown is the suggestion itself. *)
Theorem pickSuggestion_forecast (nts : Q -> str) (p : GeoResult) (s : State)
  (text : str) (r : Response) (raw : value) :
  formatPlace nts p = inr text ->
  ok r = true -> nullish raw = false ->
  (exists s1 k,
      pickSuggestion nts p s
      = AwaitFetch (forecast_url (latitude p) (longitude p)) s1 k /\
      query s1 = text /\ suggestions s1 = [] /\
      loading s1 = true /\ weather s1 = None /\ error s1 = None) /\
  exists s',
    alone (pickSuggestion nts p s) [Fetched (inr r); Parsed (inr raw)]
    = Some (Ret tt s') /\
    place s' = Some p /\ weather s' = Some (view raw) /\
    query s' = text /\ suggestions s' = [] /\
    error s' = None /\ loading s' = false.
Proof.
  intros F K N. unfold pickSuggestion. rewrite F.
  destruct (resolveAndFetch_tree (latitude p) (longitude p) (Some p)
              (with_query text s)) as (k & -> & _ & _ & Ko).
  simpl unawaited. split.
  - eexists. eexists. split; [reflexivity|]. repeat split.
  - unfold alone. simpl.
    destruct (Ko r (with_suggestions [] (cleared (with_query text s))) K)
      as (k2 & -> & K2).
    simpl. rewrite K2. unfold forecast_end, get. rewrite N. simpl.
    eexists. split; [reflexivity|]. repeat split.
Qed.

Lemma pickSuggestion_forecast_witness :
  let nts := fun _ : Q => @nil char in
  let hit := VObj [(lit "name", VStr (lit "Paris"));
                   (lit "country", VStr (lit "France"));
                   (lit "latitude", VNum (of_Z 49));
                   (lit "longitude", VNum (of_Z 2))] in
  let p := place_of hit in
  let s := with_suggestions [p] (with_query (lit "Par") initial) in
  let r := {| status := 200 |} in
  let raw := VObj [(lit "timezone", VStr (lit "Europe/Paris"))] in
  formatPlace nts p = inr (lit "Paris, France") /\
  ok r = true /\ nullish raw = false /\
  exists s',
    alone (pickSuggestion nts p s) [Fetched (inr r); Parsed (inr raw)]
    = Some (Ret tt s') /\
    place s' = Some p /\ weather s' = Some (view raw) /\
    query s' = lit "Paris, France" /\ suggestions s' = [] /\
    error s' = None /\ loading s' = false.
Proof.
  intros nts hit p s r raw.
  assert (formatPlace nts p = inr (lit "Paris, France")) as F by reflexivity.
  assert (ok r = true) as K by reflexivity.
  assert (nullish raw = false) as N by reflexivity.
  split; [exact F|]. split; [exact K|]. split; [exact N|].
  exact (proj2 (@pickSuggestion_forecast nts p s _ r raw F K N)).
Defined.

(** X23.  Picking a suggestion starts a new lookup.  The click changes the
    query to the label of the suggestion, so the autosuggest effect runs
    again: 300 ms later [fetchSuggestions] is called with the label, and
    for a label that is not empty and not a coordinate pair it asks the
    geocoder for suggestions, although the list was just emptied. *)
Theorem pick_restarts_autosuggest (nts : Q -> str) (now : N)
  (p : GeoResult) (t : Typing) (label : str) :
  formatPlace nts p = inr label ->
  Str.eqb label (query (page t)) = false ->
  label <> [] -> isLatLonInput label = false ->
  let t1 := pick nts now p t in
  suggestions (page t1) = [] /\
  timer t1 = Some {| due := now + 300; text := label |} /\
  (forall later, (now + 300 <= later)%N ->
     snd (elapse later t1) = [(now + 300, label)%N]) /\
  exists k,
    fetchSuggestions label (page t1)
    = AwaitFetch (geocoding_url label "5") (page t1) k.
Proof.
  intros F Q N L t1.
  assert (exists s1 k,
            pickSuggestion nts p (page t)
            = AwaitFetch (forecast_url (latitude p) (longitude p)) s1 k /\
            query s1 = label /\ suggestions s1 = []) as (s1 & k & E & Q1 & S1).
  { unfold pickSuggestion. rewrite F.
    eexists. eexists. split; [reflexivity|]. split; reflexivity. }
  assert (t1 = {| page := s1;
                  timer := Some {| due := now + 300; text := label |} |})
    as ->.
  { unfold t1, pick. rewrite E. simpl store. rewrite Q1, Q.
    unfold effect. now rewrite Q1. }
  simpl. split; [exact S1|]. split; [reflexivity|]. split.
  - intros later H. unfold elapse. simpl.
    apply N.leb_le in H. now rewrite H.
  - destruct (fetchSuggestions_start s1 N L) as (k' & E' & _). eauto.
Qed.

Lemma pick_restarts_autosuggest_witness :
  let nts := fun _ : Q => @nil char in
  let p := place_of (VObj [(lit "name", VStr (lit "Paris"));
                           (lit "country", VStr (lit "France"))]) in
  let t := {| page := with_suggestions [p] (with_query (lit "Par") initial);
              timer := None |} in
  let t1 := pick nts 5000 p t in
  formatPlace nts p = inr (lit "Paris, France") /\
  suggestions (page t1) = [] /\
  timer t1 = Some {| due := 5300; text := lit "Paris, France" |} /\
  (forall later, (5300 <= later)%N ->
     snd (elapse later t1) = [(5300, lit "Paris, France")%N]) /\
  exists k,
    fetchSuggestions (lit "Paris, France") (page t1)
    = AwaitFetch (geocoding_url (lit "Paris, France") "5") (page t1) k.
Proof.
  intros nts p t t1.
  assert (formatPlace nts p = inr (lit "Paris, France")) as F by reflexivity.
  split; [exact F|].
  apply (@pick_restarts_autosuggest nts 5000 p t (lit "Paris, France") F).
  - reflexivity.
  - discriminate.
  - vm_compute. reflexivity.
Defined.

(** ** Unit conversion *)

Lemma Qred_inject_Z n : Qred (inject_Z n) = inject_Z n.
Proof.
  unfold Qred, inject_Z.
  pose proof (Z.ggcd_gcd n 1) as G.
  pose proof (Z.ggcd_correct_divisors n 1) as D.
  destruct (Z.ggcd n 1) as [g [a b]]. simpl in G, D.
  rewrite Z.gcd_1_r in G. subst g. destruct D as [-> D].
  replace b with 1%Z by lia.
  f_equal. destruct a; reflexivity.
Qed.

Lemma round_half_even_exact N d :
  (0 < d)%Z -> round_half_even (N * d) d = N.
Proof.
  intros H. unfold round_half_even.
  rewrite Z.mod_mul by lia. rewrite Z.div_mul by lia.
  replace (2 * 0 <? d)%Z with true; [reflexivity|].
  symmetry. apply Z.ltb_lt. lia.
Qed.

Lemma floor_log2_whole N d :
  (0 < N < 2 ^ 53)%Z -> (0 < d)%Z -> (floor_log2 (N * d) d <= 52)%Z.
Proof.
  intros [N0 N53] D. unfold floor_log2.
  assert (Z.log2 N < 53)%Z as LN by (apply Z.log2_lt_pow2; lia).
  pose proof (Z.log2_mul_above N d ltac:(lia) ltac:(lia)) as A.
  set (l := (Z.log2 (N * d) - Z.log2 d)%Z) in *.
  assert (l <= 53)%Z as L by lia.
  destruct (Z.eq_dec l 53) as [E | E].
  - assert ((d * 2 ^ 53 <=? N * d)%Z = false) as H
      by (apply Z.leb_gt; nia).
    rewrite E. change (0 <=? 53)%Z with true. cbv iota. rewrite H. lia.
  - destruct (if (0 <=? l)%Z then _ else _); lia.
Qed.

(** A whole number below [2^53] is a double, however it is written as a
    ratio. *)
Lemma binary64_whole N d :
  (0 < N < 2 ^ 53)%Z -> (0 < d)%Z ->
  binary64 (N * d) d = Finite (inject_Z N).
Proof.
  intros HN D. unfold binary64.
  replace (N * d =? 0)%Z with false by (symmetry; apply Z.eqb_neq; nia).
  pose proof (floor_log2_whole HN D) as F.
  set (e := Z.max (floor_log2 (N * d) d) (-1022)).
  assert (-1022 <= e <= 52)%Z as E by (unfold e; lia).
  replace (0 <=? 52 - e)%Z with true by (symmetry; apply Z.leb_le; lia).
  replace (N * d * 2 ^ (52 - e))%Z with (N * 2 ^ (52 - e) * d)%Z by ring.
  rewrite round_half_even_exact by exact D.
  replace (1023 <? e)%Z with false by (symmetry; apply Z.ltb_ge; lia).
  replace (e =? 1023)%Z with false by (symmetry; apply Z.eqb_neq; lia).
  simpl orb. cbv iota. f_equal.
  rewrite <- Qred_inject_Z. apply Qred_complete.
  unfold Qeq, inject_Z. cbn [Qnum Qden].
  rewrite Z2Pos.id by (apply Z.pow_pos_nonneg; lia). ring.
Qed.

Lemma nearest_whole z d :
  (Z.abs z < 2 ^ 53)%Z ->
  nearest (z * Zpos d # d) = Finite (inject_Z z).
Proof.
  intros B. unfold nearest. cbn [Qnum Qden].
  destruct (Z.eqb_spec (z * Zpos d) 0) as [E | E].
  - replace z with 0%Z by nia. reflexivity.
  - destruct (Z.ltb_spec (z * Zpos d) 0) as [L | L].
    + replace (- (z * Zpos d))%Z with (- z * Zpos d)%Z by ring.
      rewrite binary64_whole by lia. simpl. unfold Qopp, inject_Z. simpl.
      now rewrite Z.opp_involutive.
    + apply binary64_whole; lia.
Qed.

(** X24.  Conversion to Fahrenheit is exact on the whole Celsius
    temperatures that are multiples of five, up to five hundred million
    million either way: [c * 9/5 + 32] comes out as the whole number it
    should be, no rounding.  Under metric units both conversions hand
    their argument back, and NaN stays NaN under either. *)
Theorem convertTemp_exact (j : Z) (units : Units) (x : num) :
  (Z.abs j <= 10 ^ 14)%Z ->
  convertTemp imperial (of_Z (5 * j)) = of_Z (9 * j + 32) /\
  convertTemp metric x = x /\ convertSpeed metric x = x /\
  convertTemp units NaN = NaN /\ convertSpeed units NaN = NaN.
Proof.
  intros B. split; [|destruct units; repeat split].
  unfold convertTemp, of_Z, mul_by, div_by, add_to, inject_Z.
  replace ((5 * j # 1) * 9)%Q with (45 * j * Zpos 1 # 1)%Q
    by (unfold Qmult; cbn [Qnum Qden]; f_equal; lia).
  rewrite nearest_whole by lia. unfold inject_Z.
  replace ((45 * j # 1) / 5)%Q with (9 * j * Zpos 5 # 5)%Q
    by (unfold Qdiv, Qmult, Qinv; cbn [Qnum Qden]; f_equal; lia).
  rewrite nearest_whole by lia. unfold inject_Z.
  replace ((9 * j # 1) + 32)%Q with ((9 * j + 32) * Zpos 1 # 1)%Q
    by (unfold Qplus; cbn [Qnum Qden]; f_equal; lia).
  rewrite nearest_whole by lia. reflexivity.
Qed.

Lemma convertTemp_exact_witness :
  convertTemp imperial (of_Z 100) = of_Z 212 /\
  convertTemp imperial (of_Z (-40)) = of_Z (-40).
Proof.
  split.
  - apply (@convertTemp_exact 20 metric NaN). vm_compute. discriminate.
  - apply (@convertTemp_exact (-8) metric NaN). vm_compute. discriminate.
Defined.

(** ** Weather codes *)






(** ** Late suggestions *)

(** X26.  Suggestions are not guarded against late replies either.  The
    reply to a lookup is committed in whatever state it finds: when the
    results of a lookup arrive after the query has changed, or after a
    later lookup has filled the list, the suggestions become those of the
    earlier lookup, and nothing else in the state changes. *)
Theorem late_suggestions_committed (text : str) (s0 s : State)
  (r : Response) (data : value) (items : list value) :
  text <> [] -> isLatLonInput text = false ->
  get_opt data "results" = VArr items ->
  forallb (fun v => negb (nullish v)) items = true ->
  deliver (fetchSuggestions text s0) s [Fetched (inr r); Parsed (inr data)]
  = Some (Ret tt (with_suggestions (List.map place_of items) s)).
Proof.
  intros N L R A.
  destruct (fetchSuggestions_start s0 N L) as (k & -> & _ & Kr).
  simpl.
  destruct (Kr r s) as (k2 & -> & _ & K2d). simpl. rewrite K2d, R.
  unfold or_else. simpl. now rewrite traverse_geoResult.
Qed.

Lemma late_suggestions_committed_witness :
  let hit n := VObj [(lit "name", VStr n)] in
  let old_data := VObj [(lit "results", VArr [hit (lit "Parma")])] in
  let s0 := with_query (lit "Par") initial in
  let s := with_suggestions [place_of (hit (lit "Paris"))]
             (with_query (lit "Paris") initial) in
  lit "Par" <> [] /\ isLatLonInput (lit "Par") = false /\
  deliver (fetchSuggestions (lit "Par") s0) s
          [Fetched (inr {| status := 200 |}); Parsed (inr old_data)]
  = Some (Ret tt (with_suggestions [place_of (hit (lit "Parma"))] s)) /\
  query s = lit "Paris".
Proof.
  intros hit old_data s0 s.
  assert (lit "Par" <> []) as N by discriminate.
  assert (isLatLonInput (lit "Par") = false) as L by (vm_compute; reflexivity).
  split; [exact N|]. split; [exact L|]. split; [|reflexivity].
  exact (@late_suggestions_committed (lit "Par") s0 s {| status := 200 |}
           old_data [hit (lit "Parma")] N L eq_refl eq_refl).
Defined.

(** ** White space around the input *)

Lemma dropWhile_all p l r :
  forallb p l = true -> dropWhile p (l ++ r) = dropWhile p r.
Proof.
  induction l as [|x l IH]; simpl; [reflexivity|].
  intros H. apply andb_prop in H as [Hx H]. rewrite Hx. now apply IH.
Qed.

Lemma dropWhile_app_stop p l r :
  dropWhile p l <> [] -> dropWhile p (l ++ r) = dropWhile p l ++ r.
Proof.
  induction l as [|x l IH]; simpl; [congruence|].
  destruct (p x); [exact IH | reflexivity].
Qed.

Lemma dropWhile_none p l :
  dropWhile p l = [] -> forallb p l = true.
Proof.
  induction l as [|x l IH]; simpl; [reflexivity|].
  destruct (p x); [exact IH | discriminate].
Qed.

(** White space around a string does not change what trimming leaves. *)
Lemma trim_padded ws1 q ws2 :
  forallb is_space ws1 = true -> forallb is_space ws2 = true ->
  trim (ws1 ++ q ++ ws2) = trim q.
Proof.
  intros W1 W2. unfold trim, trimStart, trimEnd.
  rewrite dropWhile_all by exact W1.
  destruct (dropWhile is_space q) as [|c u] eqn:E.
  - apply dropWhile_none in E.
    rewrite dropWhile_all by exact E.
    destruct (dropWhile is_space ws2) as [|c u] eqn:E2; [reflexivity|].
    pose proof (dropWhile_stops is_space ws2) as S. rewrite E2 in S.
    pose proof (take_drop is_space ws2) as T. rewrite E2 in T.
    assert (In c ws2) as I by (rewrite <- T; apply in_or_app; right; now left).
    rewrite forallb_forall in W2. simpl in S. rewrite (W2 c I) in S.
    discriminate S.
  - rewrite dropWhile_app_stop by (rewrite E; discriminate).
    rewrite E, rev_app_distr.
    rewrite dropWhile_all by (now apply forallb_rev).
    reflexivity.
Qed.

(** X27.  White space around the input never matters to the classifiers or
    to a submission: padded and unpadded inputs get the same answer from
    [parseLatLon] and from [isLatLonInput], and a free-text submission
    sends the geocoder the same name. *)
Theorem padding_ignored (ws1 q ws2 : str) (s : State) :
  forallb is_space ws1 = true -> forallb is_space ws2 = true ->
  let padded := ws1 ++ q ++ ws2 in
  parseLatLon padded = parseLatLon q /\
  isLatLonInput padded = isLatLonInput q /\
  (parseLatLon q = None ->
   exists s1 s2 k1 k2,
     handleSubmit (with_query padded s)
     = AwaitFetch (geocoding_url (trim q) "1") s1 k1 /\
     handleSubmit (with_query q s)
     = AwaitFetch (geocoding_url (trim q) "1") s2 k2).
Proof.
  intros W1 W2 padded.
  pose proof (trim_padded ws1 q ws2 W1 W2) as T. fold padded in T.
  assert (parseLatLon padded = parseLatLon q) as P
    by (unfold parseLatLon; now rewrite T).
  split; [exact P|]. split; [unfold isLatLonInput; now rewrite T|].
  intros N.
  pose proof (handleSubmit_first_request padded s) as H1.
  pose proof (handleSubmit_first_request q s) as H2.
  rewrite P, N, T in H1. rewrite N in H2.
  destruct H1 as (s1 & k1 & H1), H2 as (s2 & k2 & H2).
  exists s1, s2, k1, k2. split; assumption.
Qed.

Lemma padding_ignored_witness :
  parseLatLon (lit "  48.85, 2.35 ") = parseLatLon (lit "48.85, 2.35") /\
  isLatLonInput (lit "  48.85, 2.35 ") = isLatLonInput (lit "48.85, 2.35").
Proof.
  destruct (@padding_ignored (lit "  ") (lit "48.85, 2.35") (lit " ") initial
              eq_refl eq_refl) as (A & B & _).
  split; [exact A | exact B].
Defined.
